(** * IoT sensor server ([server.js]): replay cursor, broadcast hub, statistics

    A shallow embedding of [server.js].  JavaScript numbers are IEEE-754
    binary64 values and are modelled by Rocq's primitive floats, whose
    operations are the same correctly rounded binary64 operations; array
    lengths, indices and counters (exact small integers in the source) are
    [nat].  The module-level variables of the script ([sensorData],
    [currentDataIndex], [realtimeConnections], [allDataLoaded]) are the fields
    of one explicit [server] state, and the handlers that mutate it run in a
    small state-and-exception monad.  The script is event driven: what the
    environment delivers to it (rows of the file, the end of the file, timer
    ticks, connections) is an [event], and a run is a sequence of events. *)

From Stdlib Require Import ZArith Uint63 Floats Lia Ascii String DecimalString.
From stdpp Require Import base option list strings gmap.

Set Warnings "-inexact-float".
Local Open Scope Z_scope.

(** ** ECMAScript built-ins used by the script *)

Module JS.

(** A JavaScript Number. *)
Abbreviation number := float.

(** [isNaN(x)] for a Number: NaN is the only value different from itself. *)
Definition isNaN (x : number) : bool := negb (PrimFloat.eqb x x).

(** [ToBoolean] on a Number: false exactly for [+0], [-0] and [NaN]. *)
Definition truthy (x : number) : bool :=
  negb (isNaN x) && negb (PrimFloat.eqb x 0%float).

(** [a || b] on Numbers: [a] when it is truthy, else [b]. *)
Definition or (a b : number) : number := if truthy a then a else b.

(** [a || b] on optional strings ([undefined] and [""] are falsy). *)
Definition or_str (a : option string) (b : string) : string :=
  match a with
  | Some s => if String.eqb s "" then b else s
  | None => b
  end.

(** An array length or a counter as a Number.  (Lengths are below [2^32]
    and every integer below [2^53] is a Number, so nothing is rounded.) *)
Definition of_nat (n : nat) : number := of_uint63 (Uint63.of_Z (Z.of_nat n)).

(** [x] is neither NaN nor infinite. *)
Definition isFinite (x : number) : bool :=
  match Prim2SF x with
  | S754_zero _ | S754_finite _ _ _ => true
  | _ => false
  end.

(** [Math.pow(x, 2)], taken to be the correctly rounded square [x * x].
    ([Math.sqrt] is the correctly rounded square root of binary64, which is
    the primitive [sqrt].) *)
Definition pow2 (x : number) : number := (x * x)%float.

Definition is_neg_zero (x : number) : bool :=
  match Prim2SF x with S754_zero true => true | _ => false end.

(** [Math.min(...xs)] and [Math.max(...xs)]: [NaN] as soon as one argument is
    [NaN]; [-0] is below [+0]; no argument gives [+Infinity] / [-Infinity]. *)
Definition min2 (a b : number) : number :=
  if isNaN a || isNaN b then nan
  else if PrimFloat.ltb a b then a
  else if PrimFloat.ltb b a then b
  else if is_neg_zero a then a else b.

Definition max2 (a b : number) : number :=
  if isNaN a || isNaN b then nan
  else if PrimFloat.ltb a b then b
  else if PrimFloat.ltb b a then a
  else if is_neg_zero a then b else a.

Definition min (xs : list number) : number := foldl min2 infinity xs.
Definition max (xs : list number) : number := foldl max2 neg_infinity xs.

(** *** Number to integer and to text *)

(** The exact integer value of a finite mantissa and exponent, truncated
    toward zero. *)
Definition trunc (m : positive) (e : Z) : Z :=
  if 0 <=? e then Z.pos m * 2 ^ e else Z.pos m / 2 ^ (- e).

(** [ToIntegerOrInfinity]: [NaN] and zeros give 0, finite values are
    truncated, infinities are kept. *)
Inductive integer_or_infinity :=
| Fin (z : Z)
| PosInf
| NegInf.

Definition ToIntegerOrInfinity (x : number) : integer_or_infinity :=
  match Prim2SF x with
  | S754_nan | S754_zero _ => Fin 0
  | S754_infinity s => if s then NegInf else PosInf
  | S754_finite s m e => Fin (cond_Zopp s (trunc m e))
  end.

(** Decimal digits of a natural number, without leading zeros ("0" for 0). *)
Definition digits (n : Z) : string := NilZero.string_of_uint (N.to_uint (Z.to_N n)).

Fixpoint zeros (k : nat) : string :=
  match k with O => "" | S k' => String "0"%char (zeros k') end.

(** The digits of [n] with a point before the last [f] of them, padded with
    leading zeros so that at least one digit precedes the point. *)
Definition fixed_digits (n : Z) (f : nat) : string :=
  let ds := digits n in
  let ds := (zeros (S f - String.length ds) +:+ ds)%string in
  let k := (String.length ds - f)%nat in
  if decide (f = O) then ds
  else (String.substring 0 k ds +:+ "." +:+ String.substring k f ds)%string.

(** [Number::toString] for a finite integer-valued [x = X >= 10^21]: the
    shortest digit string [s] with [s * 10^(n-k)] rounding back to [x],
    printed in exponent form.  [shortest] returns [s] and [n]. *)
Definition SFsame (a b : spec_float) : bool :=
  match a, b with
  | S754_finite sa ma ea, S754_finite sb mb eb =>
      Bool.eqb sa sb && Pos.eqb ma mb && Z.eqb ea eb
  | _, _ => false
  end.

Fixpoint shortest (fuel : nat) (k nd X : Z) (sf : spec_float) : Z * Z :=
  match fuel with
  | O => (X, nd)
  | S fuel' =>
      let p := 10 ^ (nd - k) in
      let lo := X / p in
      let hi := lo + 1 in
      let ok v := SFsame (binary_normalize prec emax (v * p) 0 false) sf in
      let pick s := if s =? 10 ^ k then (1, nd + 1) else (s, nd) in
      match ok lo, ok hi with
      | true, true =>
          if X - lo * p <? hi * p - X then pick lo
          else if hi * p - X <? X - lo * p then pick hi
          else if Z.even lo then pick lo else pick hi
      | true, false => pick lo
      | false, true => pick hi
      | false, false => shortest fuel' (k + 1) nd X sf
      end
  end.

Fixpoint strip_zeros (fuel : nat) (s : Z) : Z :=
  match fuel with
  | O => s
  | S fuel' => if (0 <? s) && (s mod 10 =? 0) then strip_zeros fuel' (s / 10) else s
  end.

Definition toString_large (X : Z) (sf : spec_float) : string :=
  let nd := Z.of_nat (String.length (digits X)) in
  let '(s, n) := shortest 17 1 nd X sf in
  let ds := digits (strip_zeros 17 s) in
  let e := ("e+" +:+ digits (n - 1))%string in
  match ds with
  | String d "" => (String d "" +:+ e)%string
  | String d rest => (String d "" +:+ "." +:+ rest +:+ e)%string
  | EmptyString => e
  end.

(** [x.toFixed(f)]: non-finite values print by name; a magnitude of [10^21]
    or more prints as [toString] does; otherwise the integer [n] with
    [n / 10^f] nearest to [|x|] (the larger one on a tie) is printed with [f]
    fraction digits, after "-" when [x < 0]. *)
Definition toFixed (x : number) (f : nat) : string :=
  match Prim2SF x with
  | S754_nan => "NaN"
  | S754_infinity s => if s then "-Infinity" else "Infinity"
  | S754_zero _ => fixed_digits 0 f
  | S754_finite s m e =>
      let sign := if s then "-" else "" in
      if (0 <=? e) && (10 ^ 21 <=? Z.pos m * 2 ^ e)
      then (sign +:+ toString_large (Z.pos m * 2 ^ e) (S754_finite false m e))%string
      else
        let p := Z.pos m * 10 ^ Z.of_nat f in
        let n := if 0 <=? e then p * 2 ^ e
                 else (2 * p + 2 ^ (- e)) / (2 * 2 ^ (- e)) in
        (sign +:+ fixed_digits n f)%string
  end.

(** *** Text to Number: [parseFloat] and [parseInt]

    Strings are byte strings here, so of the language's white space only
    the ASCII characters (tab, line feed, vertical tab, form feed, carriage
    return, space) are recognised. *)

Definition is_space (c : ascii) : bool :=
  let n := nat_of_ascii c in
  ((9 <=? n) && (n <=? 13) || (n =? 32))%nat.

Fixpoint trim_start (s : string) : string :=
  match s with
  | String c r => if is_space c then trim_start r else s
  | EmptyString => s
  end.

(** The value of a digit in radix [radix] (10 or 16), if it is one. *)
Definition digit (radix : Z) (c : ascii) : option Z :=
  let n := Z.of_nat (nat_of_ascii c) in
  if (48 <=? n) && (n <=? 57) then Some (n - 48)
  else if (radix =? 16) && (97 <=? n) && (n <=? 102) then Some (n - 87)
  else if (radix =? 16) && (65 <=? n) && (n <=? 70) then Some (n - 55)
  else None.

(** The longest prefix of digits: its value (continuing [acc]), the number
    of digits read, and the rest of the string. *)
Fixpoint read_digits (radix : Z) (s : string) (acc : Z) (cnt : nat) : Z * nat * string :=
  match s with
  | String c r =>
      match digit radix c with
      | Some d => read_digits radix r (acc * radix + d) (S cnt)
      | None => (acc, cnt, s)
      end
  | EmptyString => (acc, cnt, s)
  end.

(** An optional sign: whether it is "-", and the rest. *)
Definition read_sign (s : string) : bool * string :=
  match s with
  | String "-" r => (true, r)
  | String "+" r => (false, r)
  | _ => (false, s)
  end.

(** The Number nearest to [± num / den] (ties to even). *)
Definition round_ratio (neg : bool) (num den : Z) : number :=
  if num =? 0 then (if neg then neg_zero else 0%float)
  else
    let '(q, e, l) := SFdiv_core_binary prec emax num 0 den 0 in
    SF2Prim (binary_round_aux prec emax neg q e l).

(** The Number nearest to [± m * 10^e].  Exponents far outside the range of
    binary64 are cut short: the result is an infinity or a zero anyway. *)
Definition of_decimal (neg : bool) (m e : Z) : number :=
  let nd := Z.of_nat (String.length (digits m)) in
  if m =? 0 then (if neg then neg_zero else 0%float)
  else if 400 <? nd + e then (if neg then neg_infinity else infinity)
  else if nd + e <? -400 then (if neg then neg_zero else 0%float)
  else if 0 <=? e then round_ratio neg (m * 10 ^ e) 1
  else round_ratio neg m (10 ^ (- e)).

(** [parseFloat(s)]: skip leading white space, read the longest prefix that
    is a decimal literal (sign, "Infinity" or digits with an optional
    fraction and exponent); [NaN] when there is none.  [parseFloat(undefined)]
    reads the text "undefined" and is [NaN]. *)
Definition parseFloat_string (s : string) : number :=
  let '(neg, s) := read_sign (trim_start s) in
  if String.prefix "Infinity" s then (if neg then neg_infinity else infinity)
  else
    let '(ip, ni, s1) := read_digits 10 s 0 O in
    let '(m, nf, s2) :=
      match s1 with
      | String "." r => read_digits 10 r ip O
      | _ => (ip, O, s1)
      end in
    if decide (ni = O ∧ nf = O) then nan
    else
      let ex :=
        match s2 with
        | String c r =>
            if (Ascii.eqb c "e" || Ascii.eqb c "E")%bool then
              let '(eneg, r') := read_sign r in
              let '(ev, ne, _) := read_digits 10 r' 0 O in
              if decide (ne = O) then 0 else if eneg then - ev else ev
            else 0
        | EmptyString => 0
        end in
      of_decimal neg m (ex - Z.of_nat nf).

Definition parseFloat (v : option string) : number :=
  match v with
  | Some s => parseFloat_string s
  | None => nan
  end.

(** [parseInt(s)] without a radix: skip leading white space, an optional
    sign, an optional "0x"/"0X" (then radix 16), and read the longest
    prefix of digits; [NaN] when there is none. *)
Definition parseInt_string (s : string) : number :=
  let '(neg, s) := read_sign (trim_start s) in
  let '(radix, s) :=
    match s with
    | String "0" (String c r) =>
        if (Ascii.eqb c "x" || Ascii.eqb c "X")%bool then (16, r) else (10, s)
    | _ => (10, s)
    end in
  let '(v, n, _) := read_digits radix s 0 O in
  if decide (n = O) then nan
  else if v =? 0 then (if neg then neg_zero else 0%float)
  else round_ratio neg v 1.

Definition parseInt (v : option string) : number :=
  match v with
  | Some s => parseInt_string s
  | None => nan
  end.

End JS.

(** ** Data model *)

(** One processed row of the CSV file ([processedRow], lines 31-38). *)
Record SensorRecord := {
  timestamp : string;
  battery_voltage : JS.number;
  humidity : JS.number;
  motion : JS.number;
  temperature : JS.number;
  id : string
}.

(** A row as the CSV parser hands it over: an object from column names to the
    text of the cells.  A column the file does not have is [undefined]. *)
Abbreviation row := (gmap string string).

(** The [data] event of the stream: the row, together with what the handler
    reads from its environment while processing it: the wall clock
    ([new Date().toISOString()]) and the random identifier
    ([Math.random().toString(36).substr(2, 9)]). *)
Record row_event := {
  cells : row;
  clock : string;
  random_id : string
}.

(** A live client of the event stream (lines 162-165).  [res] is a reference
    to the response object, which lives in the server's heap of responses;
    client objects are compared by reference, and every connection has a
    response of its own, so [res] identifies the client. *)
Record client := {
  client_id : Z;
  res : nat
}.

(** The payload of a frame (lines 62-67, 98-103, 175-180): the fields of the
    current record spread into the object ([None] when the record is
    [undefined], whose spread adds nothing), then three more fields. *)
Record envelope := {
  fields : option SensorRecord;
  realtime_timestamp : string;
  current_index : nat;
  total_records : nat
}.

(** A frame of the event stream: the text [data: <json>] followed by an
    empty line, where the JSON object has a [type] and a [data] field.  The
    frame is kept as the object it serialises. *)
Record frame := {
  type : string;
  data : envelope
}.

(** A response object of the HTTP library, as far as the script uses it as a
    stream: whether its connection is still open, and the frames that went
    out on it. *)
Record response := {
  writable : bool;
  written : list frame
}.

(** The module-level state of the script (lines 12-15), with the heap of
    response objects and the number of replay timers started. *)
Record server := {
  sensorData : list SensorRecord;
  allDataLoaded : bool;
  realtimeConnections : list client;
  currentDataIndex : nat;
  responses : gmap nat response;
  timers : nat
}.

(** The state when the script has been evaluated. *)
Definition initial : server := {|
  sensorData := [];
  allDataLoaded := false;
  realtimeConnections := [];
  currentDataIndex := 0;
  responses := ∅;
  timers := 0
|}.

(** ** Loading ([loadAllCSVData], lines 17-53) *)

(** Lines 31-38. *)
Definition processRow (ev : row_event) : SensorRecord :=
  let row := cells ev in {|
    timestamp :=
      JS.or_str (row !! "time")
        (JS.or_str (row !! "timestamp") (JS.or_str (row !! "date") (clock ev)));
    battery_voltage :=
      JS.or (JS.or (JS.or (JS.parseFloat (row !! "battery_voltage"))
                          (JS.parseFloat (row !! "battery")))
                   (JS.parseFloat (row !! "voltage"))) 0%float;
    humidity :=
      JS.or (JS.or (JS.parseFloat (row !! "humidity")) (JS.parseFloat (row !! "hum"))) 0%float;
    motion :=
      JS.or (JS.or (JS.parseInt (row !! "motion")) (JS.parseFloat (row !! "motion"))) 0%float;
    temperature :=
      JS.or (JS.or (JS.parseFloat (row !! "temperature")) (JS.parseFloat (row !! "temp"))) 0%float;
    id := random_id ev
  |}.

(** Line 40: the row is kept when neither value is [NaN]. *)
Definition keeps (r : SensorRecord) : bool :=
  negb (JS.isNaN (temperature r)) && negb (JS.isNaN (humidity r)).

(** Lines 30-43: the handler of a [data] event, on the array being built. *)
Definition onData (store : list SensorRecord) (ev : row_event) : list SensorRecord :=
  let processedRow := processRow ev in
  if keeps processedRow then store ++ [processedRow] else store.

(** What reading [sensor_data.csv] gives: there is no such file; or the
    stream delivers the rows and ends; or it delivers some rows and then
    fails. *)
Inductive csv_file :=
| Missing
| File (rows : list row_event)
| Broken (rows : list row_event).

Definition set_sensorData (rs : list SensorRecord) (s : server) : server := {|
  sensorData := rs;
  allDataLoaded := allDataLoaded s;
  realtimeConnections := realtimeConnections s;
  currentDataIndex := currentDataIndex s;
  responses := responses s;
  timers := timers s
|}.

(** [startRealtimeSimulation] (lines 55-72) starts one more timer; what the
    timer runs is [tick] below. *)
Definition startRealtimeSimulation (s : server) : server := {|
  sensorData := sensorData s;
  allDataLoaded := allDataLoaded s;
  realtimeConnections := realtimeConnections s;
  currentDataIndex := currentDataIndex s;
  responses := responses s;
  timers := S (timers s)
|}.

(** The handler of the [end] event (lines 44-49). *)
Definition onEnd (s : server) : server :=
  startRealtimeSimulation {|
    sensorData := sensorData s;
    allDataLoaded := true;
    realtimeConnections := realtimeConnections s;
    currentDataIndex := currentDataIndex s;
    responses := responses s;
    timers := timers s
  |}.

(** [loadAllCSVData]: without the file nothing changes (lines 20-23);
    otherwise the array is emptied (line 25) and every row the stream
    delivers goes through [onData]; when the stream ends, [onEnd] runs; when
    it fails, the error is logged and the rows read so far stay. *)
Definition loadAllCSVData (file : csv_file) (s : server) : server :=
  match file with
  | Missing => s
  | File rows => onEnd (set_sensorData (foldl onData [] rows) s)
  | Broken rows => set_sensorData (foldl onData [] rows) s
  end.

(** ** Handlers that mutate the state *)

(** How a handler ends: it returns a value or an exception propagates to its
    caller.  Either way the mutations made so far stay. *)
Inductive outcome (A : Type) :=
| Returned (a : A)
| Thrown (e : string).
Arguments Returned {A} a.
Arguments Thrown {A} e.

Definition M (A : Type) : Type := server → outcome A * server.

#[global] Instance M_ret : MRet M := λ A a s, (Returned a, s).
#[global] Instance M_bind : MBind M := λ A B f m s,
  match m s with
  | (Returned a, s') => f a s'
  | (Thrown e, s') => (Thrown e, s')
  end.

Definition get : M server := λ s, (Returned s, s).
Definition put (s : server) : M unit := λ _, (Returned tt, s).

(** [xs.forEach(f)]: the calls in order; an exception in one of them ends the
    loop. *)
Fixpoint forEach {A} (f : A → M unit) (xs : list A) : M unit :=
  match xs with
  | [] => mret tt
  | x :: xs' => f x ≫= λ _, forEach f xs'
  end.

Definition set_responses (rs : gmap nat response) (s : server) : server := {|
  sensorData := sensorData s;
  allDataLoaded := allDataLoaded s;
  realtimeConnections := realtimeConnections s;
  currentDataIndex := currentDataIndex s;
  responses := rs;
  timers := timers s
|}.

Definition set_connections (cs : list client) (s : server) : server := {|
  sensorData := sensorData s;
  allDataLoaded := allDataLoaded s;
  realtimeConnections := cs;
  currentDataIndex := currentDataIndex s;
  responses := responses s;
  timers := timers s
|}.

Definition set_index (i : nat) (s : server) : server := {|
  sensorData := sensorData s;
  allDataLoaded := allDataLoaded s;
  realtimeConnections := realtimeConnections s;
  currentDataIndex := i;
  responses := responses s;
  timers := timers s
|}.

(** [res.write(frame)] (lines 81 and 182): while the connection of the
    response is open, the frame is appended to what the response has
    written; once the connection is gone the frame is dropped.  Writing a
    string to a response does not throw, so the call returns in both cases;
    its boolean result, which the script never looks at, is left out. *)
Definition write (h : nat) (fr : frame) : M unit := λ s,
  match responses s !! h with
  | Some r =>
      if writable r
      then (Returned tt,
            set_responses (<[h := {| writable := true; written := written r ++ [fr] |}]> (responses s)) s)
      else (Returned tt, s)
  | None => (Returned tt, s)
  end.

(** ** Replay ([startRealtimeSimulation] and [broadcastRealtimeData], lines 55-83) *)

(** Lines 74-83. *)
Definition broadcastRealtimeData (data : envelope) : M unit :=
  s ← get;
  let message := {| type := "realtime_update"; data := data |} in
  forEach (λ client, write (res client) message) (realtimeConnections s).

(** Line 59: the cursor moves one record on and wraps at the end.  (The
    caller has checked that the array is not empty.) *)
Definition advance (s : server) : server :=
  set_index ((currentDataIndex s + 1) `mod` length (sensorData s))%nat s.

(** Lines 56-71: what the timer runs every two seconds; [now] is the wall
    clock when it fires. *)
Definition tick (now : string) : M unit :=
  s ← get;
  if decide (length (sensorData s) = 0%nat) then mret tt
  else
    put (advance s) ;;
    s ← get;
    let currentData := sensorData s !! currentDataIndex s in
    let realtimeData := {|
      fields := currentData;
      realtime_timestamp := now;
      current_index := currentDataIndex s;
      total_records := length (sensorData s)
    |} in
    broadcastRealtimeData realtimeData.

(** ** The event stream ([GET /api/realtime-stream], lines 154-189) *)

(** A client connects at time [now] ([Date.now()] is [t]): a fresh response
    object is opened, the client is added to the set, and when there is data
    the current record is written to it as the initial frame. *)
Definition subscribe (t : Z) (now : string) : M client :=
  s ← get;
  let h := fresh (dom (responses s)) in
  let client := {| client_id := t; res := h |} in
  put (set_connections (realtimeConnections s ++ [client])
         (set_responses (<[h := {| writable := true; written := [] |}]> (responses s)) s)) ;;
  (if decide (0 < length (sensorData s))%nat then
     let currentData := sensorData s !! currentDataIndex s in
     write h {| type := "initial_data";
                data := {| fields := currentData;
                           realtime_timestamp := now;
                           current_index := currentDataIndex s;
                           total_records := length (sensorData s) |} |}
   else mret tt) ;;
  mret client.

(** The handler of the request's [close] event (lines 185-188):
    [realtimeConnections.delete(client)]. *)
Definition onClose (c : client) (s : server) : server :=
  set_connections (filter (λ c', res c' ≠ res c) (realtimeConnections s)) s.

(** The connection of a response is lost (an event of the environment): from
    then on the frames written to it are dropped.  The [close] event of the
    request, which [onClose] handles, comes after it. *)
Definition streamClosed (h : nat) (s : server) : server :=
  set_responses (alter (λ r, {| writable := false; written := written r |}) h (responses s)) s.

(** ** Statistics (lines 106-152 and 210-237) *)

Local Open Scope float_scope.

(** [xs.reduce(f)] without an initial value, on a non-empty array: the fold
    starts from the first element.  (On an empty array the source raises a
    [TypeError]; below it is only reached from inside a loop over the same
    array, so never on an empty one.) *)
Definition reduce1 (f : JS.number → JS.number → JS.number) (xs : list JS.number) : JS.number :=
  match xs with
  | x :: xs' => foldl f x xs'
  | [] => nan
  end.

(** [xs.reduce((acc, val, i) => f(acc, val, i), init)], [i] counting from [i0]. *)
Fixpoint reduce_i {A B} (f : A → B → nat → A) (acc : A) (xs : list B) (i0 : nat) : A :=
  match xs with
  | [] => acc
  | x :: xs' => reduce_i f (f acc x i0) xs' (S i0)
  end.

(** [ys[i]] as a Number operand: [undefined] out of range, which arithmetic
    turns into [NaN]. *)
Definition at_index (ys : list JS.number) (i : nat) : JS.number := default nan (ys !! i).

(** The [avg] fields (lines 125, 131, 137). *)
Definition avg_of (xs : list JS.number) : JS.number :=
  foldl (λ sum val, sum + val) 0 xs / JS.of_nat (length xs).

(** The [std] fields (lines 126 and 132). *)
Definition std_of (xs : list JS.number) : JS.number :=
  sqrt (foldl (λ sq n, sq + JS.pow2 (n - reduce1 (λ a b, a + b) xs / JS.of_nat (length xs))) 0 xs
        / JS.of_nat (length xs)).

(** Lines 210-223. *)
Definition findLongestActivation (motionData : list JS.number) : nat :=
  fst (foldl
         (λ '(maxLength, currentLength) motion,
            if 0 <? motion
            then (Nat.max maxLength (S currentLength), S currentLength)
            else (maxLength, 0%nat))
         (0%nat, 0%nat) motionData).

(** What [calculateCorrelation] returns: the Number 0, or the text that
    [toFixed] produced. *)
Inductive value :=
| Num (x : JS.number)
| Str (s : string).

(** Lines 225-237. *)
Definition calculateCorrelation (x y : list JS.number) : value :=
  let n := JS.of_nat (length x) in
  let sum_x := foldl (λ a b, a + b) 0 x in
  let sum_y := foldl (λ a b, a + b) 0 y in
  let sum_xy := reduce_i (λ sum val i, sum + val * at_index y i) 0 x 0 in
  let sum_x2 := foldl (λ sum val, sum + val * val) 0 x in
  let sum_y2 := foldl (λ sum val, sum + val * val) 0 y in
  let numerator := n * sum_xy - sum_x * sum_y in
  let denominator := sqrt ((n * sum_x2 - sum_x * sum_x) * (n * sum_y2 - sum_y * sum_y)) in
  if denominator =? 0 then Num 0 else Str (JS.toFixed (numerator / denominator) 3).

Module Series.
Record t := { min : JS.number; max : JS.number; avg : JS.number; std : JS.number }.
End Series.

Module Battery.
Record t := { min : JS.number; max : JS.number; avg : JS.number; trend : JS.number }.
End Battery.

Module Motion.
Record t := { total_detections : nat; detection_rate : string; longest_activation : nat }.
End Motion.

Module Correlations.
Record t := { temp_humidity : value; temp_battery : value }.
End Correlations.

Record stats := {
  stats_total_records : nat;
  data_range : option string * option string;
  stats_temperature : Series.t;
  stats_humidity : Series.t;
  stats_battery_voltage : Battery.t;
  stats_motion : Motion.t;
  correlations : Correlations.t
}.

(** Lines 111-149, on a non-empty array. *)
Definition computeStats (sensorData : list SensorRecord) : stats :=
  let tempData := map temperature sensorData in
  let humidityData := map humidity sensorData in
  let batteryData := map battery_voltage sensorData in
  let motionData := map motion sensorData in
  let detections := length (filter (λ val, (0 <? val) = true) motionData) in {|
    stats_total_records := length sensorData;
    data_range :=
      (timestamp <$> sensorData !! 0%nat,
       timestamp <$> sensorData !! (length sensorData - 1)%nat);
    stats_temperature := {|
      Series.min := JS.min tempData;
      Series.max := JS.max tempData;
      Series.avg := avg_of tempData;
      Series.std := std_of tempData |};
    stats_humidity := {|
      Series.min := JS.min humidityData;
      Series.max := JS.max humidityData;
      Series.avg := avg_of humidityData;
      Series.std := std_of humidityData |};
    stats_battery_voltage := {|
      Battery.min := JS.min batteryData;
      Battery.max := JS.max batteryData;
      Battery.avg := avg_of batteryData;
      Battery.trend :=
        at_index batteryData (length batteryData - 1) - at_index batteryData 0 |};
    stats_motion := {|
      Motion.total_detections := detections;
      Motion.detection_rate :=
        JS.toFixed (JS.of_nat detections / JS.of_nat (length motionData) * 100) 1;
      Motion.longest_activation := findLongestActivation motionData |};
    correlations := {|
      Correlations.temp_humidity := calculateCorrelation tempData humidityData;
      Correlations.temp_battery := calculateCorrelation tempData batteryData |}
  |}.

Local Close Scope float_scope.

(** ** The read endpoints *)

(** What [res.json] sends. *)
Inductive body :=
| Error (error : string)
| Records (rs : list SensorRecord)
| Current (e : envelope)
| Statistics (st : stats).

(** A reply: the status ([200] unless [res.status] set another) and the body. *)
Record reply := {
  status : nat;
  json : body
}.

(** [GET /api/all-data] (lines 85-90). *)
Definition allData (s : server) : reply :=
  if decide (length (sensorData s) = 0%nat)
  then {| status := 404; json := Error "No data available" |}
  else {| status := 200; json := Records (sensorData s) |}.

(** [GET /api/current-data] (lines 92-104). *)
Definition currentData (now : string) (s : server) : reply :=
  if decide (length (sensorData s) = 0%nat)
  then {| status := 404; json := Error "No data available" |}
  else {| status := 200;
          json := Current {| fields := sensorData s !! currentDataIndex s;
                             realtime_timestamp := now;
                             current_index := currentDataIndex s;
                             total_records := length (sensorData s) |} |}.

(** [GET /api/statistics] (lines 106-152). *)
Definition statistics (s : server) : reply :=
  if decide (length (sensorData s) = 0%nat)
  then {| status := 200; json := Error "No data available" |}
  else {| status := 200; json := Statistics (computeStats (sensorData s)) |}.

(** [xs.slice(start)]: a negative [start] counts from the end, and both ends
    are clamped to the array. *)
Definition slice {A} (start : JS.number) (xs : list A) : list A :=
  let len := Z.of_nat (length xs) in
  let k :=
    match JS.ToIntegerOrInfinity start with
    | JS.NegInf => 0
    | JS.PosInf => len
    | JS.Fin z => if z <? 0 then Z.max (len + z) 0 else Z.min z len
    end in
  drop (Z.to_nat k) xs.

(** [GET /api/recent-data/:limit] (lines 191-195); [param] is the text of the
    path parameter. *)
Definition recentData (param : string) (s : server) : reply :=
  let limit := JS.or (JS.parseInt (Some param)) 50%float in
  let recentData := slice (- limit)%float (sensorData s) in
  {| status := 200; json := Records recentData |}.

(** * Notions the properties are stated with

    The definitions of this part follow the words of the specification (a
    run of active entries, the last records, the population standard
    deviation, Pearson's coefficient) or describe the state around a
    broadcast; the properties compare the functions of the script with
    them. *)

(** [motion > 0]. *)
Definition active (motion : JS.number) : bool := (0 <? motion)%float.

(** The entries [i, i + len) of [l] exist and are all active: a run of
    consecutive active entries, in stored order. *)
Definition run (l : list JS.number) (i len : nat) : Prop :=
  ∀ j, (i ≤ j < i + len)%nat → ∃ x, l !! j = Some x ∧ active x = true.

(** One turn of the loop of [findLongestActivation], on the pair
    [(maxLength, currentLength)]. *)
Definition scan_step (acc : nat * nat) (motion : JS.number) : nat * nat :=
  let '(maxLength, currentLength) := acc in
  if (0 <? motion)%float
  then (Nat.max maxLength (S currentLength), S currentLength)
  else (maxLength, 0%nat).

(** The pair after the loop has gone through [l]. *)
Definition scan (l : list JS.number) : nat * nat := foldl scan_step (0%nat, 0%nat) l.

(** The invariant of the loop after the entries [l]: [currentLength] is the
    length of the longest run that ends at the end of [l], and [maxLength]
    the length of the longest run anywhere in [l]. *)
Record scan_inv (l : list JS.number) (maxLength currentLength : nat) : Prop := {
  inv_le : (currentLength ≤ maxLength)%nat;
  inv_cur_fits : (currentLength ≤ length l)%nat;
  inv_cur_run : run l (length l - currentLength) currentLength;
  inv_cur_max : ∀ i len, (i + len = length l)%nat → run l i len → (len ≤ currentLength)%nat;
  inv_max_run : ∃ i, (i + maxLength ≤ length l)%nat ∧ run l i maxLength;
  inv_max_max : ∀ i len, run l i len → (len ≤ maxLength)%nat
}.

(** The last [k] records of a store, in stored order (all of them when there
    are fewer). *)
Definition last_n {A} (k : nat) (xs : list A) : list A := drop (length xs - k) xs.

(** A write to the response of [c] succeeds. *)
Definition accepts (s : server) (c : client) : Prop :=
  ∃ r, responses s !! res c = Some r ∧ writable r = true.

(** A write to the response of [c] fails: the connection is gone and the
    frame is lost. *)
Definition fails (s : server) (c : client) : Prop :=
  ∃ r, responses s !! res c = Some r ∧ writable r = false.

(** A response after [fr] has been written to it. *)
Definition append_frame (fr : frame) (r : response) : response :=
  {| writable := writable r; written := written r ++ [fr] |}.

(** A response after a write of [fr] was tried on it. *)
Definition receive (fr : frame) (r : response) : response :=
  if writable r then append_frame fr r else r.

(** The heap of responses after a write of [fr] was tried on each of the
    clients [cs]. *)
Definition delivered (fr : frame) (cs : list client) (rs : gmap nat response) :
    gmap nat response :=
  foldl (λ rs c, alter (receive fr) (res c) rs) rs cs.

Local Open Scope float_scope.

(** [x] is [+0] or [-0]. *)
Definition is_zero (x : JS.number) : Prop := ∃ s, Prim2SF x = S754_zero s.

(** Two Numbers that are equal, or both zeros (of any signs). *)
Definition same_or_zeros (a b : JS.number) : Prop := a = b ∨ (is_zero a ∧ is_zero b).

(** The sum of a series, accumulated from 0 in stored order. *)
Definition sum (xs : list JS.number) : JS.number := foldl (λ a b, a + b) 0 xs.

(** The arithmetic mean of a series. *)
Definition mean (xs : list JS.number) : JS.number := sum xs / JS.of_nat (length xs).

(** The population standard deviation of a series: the squared deviations
    from the mean of the same series, computed once, are summed, divided by
    the number of values, and the square root is taken. *)
Definition population_std (xs : list JS.number) : JS.number :=
  let m := mean xs in
  sqrt (sum ((λ x, (x - m) * (x - m)) <$> xs) / JS.of_nat (length xs)).

(** [n * Σx² - (Σx)²], the term of one series under the square root. *)
Definition variance_term (n : JS.number) (xs : list JS.number) : JS.number :=
  n * sum ((λ v, v * v) <$> xs) - sum xs * sum xs.

(** The numerator [n * Σxy - Σx * Σy] of Pearson's coefficient; the
    denominator is [sqrt ((n * Σx² - (Σx)²) * (n * Σy² - (Σy)²))]. *)
Definition pearson_numerator (x y : list JS.number) : JS.number :=
  JS.of_nat (length x) * sum (zip_with (λ a b, a * b) x y) - sum x * sum y.

(** The denominator of Pearson's coefficient. *)
Definition pearson_denominator (x y : list JS.number) : JS.number :=
  let n := JS.of_nat (length x) in
  sqrt (variance_term n x * variance_term n y).

Local Close Scope float_scope.

(** ** The running server

    What happens to the state once the server listens, one event at a time:
    the timer fires, a client connects, the [close] event of a client's
    request is handled, a connection is lost; and, since the file is read
    while requests are already served (lines 28-52 only register handlers),
    the stream of the file delivers a row, ends, or fails. *)

Inductive event :=
| Tick (now : string)
| Connect (t : Z) (now : string)
| Disconnect (c : client)
| StreamClosed (h : nat)
| RowRead (ev : row_event)
| EndOfFile
| ReadError.

(** The state after one event.  A row goes through the [data] handler (lines
    30-43), the end of the file through the [end] handler (lines 44-49); the
    [error] handler (lines 50-52) only logs. *)
Definition step (s : server) (e : event) : server :=
  match e with
  | Tick now => (tick now s).2
  | Connect t now => (subscribe t now s).2
  | Disconnect c => onClose c s
  | StreamClosed h => streamClosed h s
  | RowRead ev => set_sensorData (onData (sensorData s) ev) s
  | EndOfFile => onEnd s
  | ReadError => s
  end.

Definition run_events (es : list event) (s : server) : server := foldl step s es.

(** Lines 239-249 and 18-28: the state when the server starts to listen.
    [loadAllCSVData] is called at once; when the file exists it empties the
    array (line 25) and opens the file, whose rows arrive later, as events. *)
Definition listening (file_exists : bool) : server :=
  if file_exists then set_sensorData [] initial else initial.

(** The rows among the events of a run, in the order they were read. *)
Definition rows_read (es : list event) : list row_event :=
  omap (λ e, if e is RowRead ev then Some ev else None) es.

(** The events by which a file is read, when nothing else happens
    meanwhile. *)
Definition read_events (file : csv_file) : list event :=
  match file with
  | Missing => []
  | File rows => (RowRead <$> rows) ++ [EndOfFile]
  | Broken rows => (RowRead <$> rows) ++ [ReadError]
  end.

(** The state when the file has been read, to its end or to a failure, and
    no other event has been handled meanwhile: [loadAllCSVData] as one step
    from the initial state.  (It is what [read_events] make of [listening];
    the runs in which requests are served while the file is being read are
    those of [run_events].) *)
Definition startup (file : csv_file) : server := loadAllCSVData file initial.

(** The cursor designates a record whenever there is one. *)
Definition cursor_valid (s : server) : Prop :=
  sensorData s ≠ [] → (currentDataIndex s < length (sensorData s))%nat.

(** No client is registered twice, and every registered client has its
    response in the heap. *)
Definition registry_wf (s : server) : Prop :=
  NoDup (res <$> realtimeConnections s)
  ∧ Forall (λ c, is_Some (responses s !! res c)) (realtimeConnections s).

(** The frame of the [j]-th tick (counting from 0) after a state whose store
    is [store] and whose cursor is [i], fired at time [now]. *)
Definition update_frame (store : list SensorRecord) (i j : nat) (now : string) : frame :=
  let i' := ((i + S j) `mod` length store)%nat in
  {| type := "realtime_update";
     data := {| fields := store !! i';
                realtime_timestamp := now;
                current_index := i';
                total_records := length store |} |}.

(** The frames a client receives when it connects at time [now]: the current
    record as [initial_data] when there is data, nothing otherwise. *)
Definition initial_frames (now : string) (s : server) : list frame :=
  if decide (0 < length (sensorData s))%nat then
    [{| type := "initial_data";
        data := {| fields := sensorData s !! currentDataIndex s;
                   realtime_timestamp := now;
                   current_index := currentDataIndex s;
                   total_records := length (sensorData s) |} |}]
  else [].

(** The rows the stream of a file delivers. *)
Definition rows_of (file : csv_file) : list row_event :=
  match file with
  | Missing => []
  | File rows | Broken rows => rows
  end.

(** A record none of whose numbers is [NaN] and whose timestamp is not empty. *)
Definition well_formed (r : SensorRecord) : Prop :=
  JS.isNaN (temperature r) = false
  ∧ JS.isNaN (humidity r) = false
  ∧ JS.isNaN (battery_voltage r) = false
  ∧ JS.isNaN (motion r) = false
  ∧ timestamp r ≠ "".

(** * Stores, rows and registries the properties are tried on *)

(** Three records of temperature 1, 2 and 3, humidity 40 throughout. *)
Definition three_records : list SensorRecord :=
  (λ t, {| timestamp := "2024-01-01T00:00:00Z"; battery_voltage := 3%float;
           humidity := 40%float; motion := 1%float; temperature := t; id := "a" |})
  <$> [1%float; 2%float; 3%float].

(** A server that has loaded them, with the cursor on the last one. *)
Definition loaded : server := {|
  sensorData := three_records;
  allDataLoaded := true;
  realtimeConnections := [];
  currentDataIndex := 2;
  responses := ∅;
  timers := 1
|}.

(** The row [{temperature: "0", temp: "25", humidity: "40"}]. *)
Definition zero_then_alias : row_event := {|
  cells := <["temperature" := "0"]> (<["temp" := "25"]> (<["humidity" := "40"]> ∅));
  clock := "2024-01-01T00:00:00.000Z";
  random_id := "k3j9x0q1z"
|}.

(** Three clients have connected to the loaded server, one after the other. *)
Definition connected : server :=
  (subscribe 1704067203000 "2024-01-01T00:00:03.000Z"
     (subscribe 1704067202000 "2024-01-01T00:00:02.000Z"
        (subscribe 1704067201000 "2024-01-01T00:00:01.000Z" loaded).2).2).2.

(** The same, after the connection of the second has been lost. *)
Definition second_closed : server := streamClosed 1 connected.


(** The file with three rows [{temperature: "0.1", humidity: "45"}], loaded. *)
Definition three_tenths : server :=
  loadAllCSVData
    (File (replicate 3 {| cells := <["temperature" := "0.1"]> (<["humidity" := "45"]> ∅);
                          clock := "2024-01-01T00:00:00.000Z";
                          random_id := "k3j9x0q1z" |}))
    initial.

(** * Properties *)

(** ** The replay cursor *)

Lemma advance_index (s : server) :
  currentDataIndex (advance s)
  = ((currentDataIndex s + 1) `mod` length (sensorData s))%nat.
Proof. reflexivity. Qed.

Lemma advance_sensorData (s : server) : sensorData (advance s) = sensorData s.
Proof. reflexivity. Qed.

Lemma iter_advance_sensorData (k : nat) (s : server) :
  sensorData (Nat.iter k advance s) = sensorData s.
Proof. induction k as [|k IH]; simpl; auto. Qed.

Lemma iter_advance_index (k : nat) (s : server) :
  (currentDataIndex s < length (sensorData s))%nat →
  currentDataIndex (Nat.iter k advance s)
  = ((currentDataIndex s + k) `mod` length (sensorData s))%nat.
Proof.
  intros Hi. induction k as [|k IH].
  - simpl. rewrite Nat.add_0_r, Nat.mod_small; done.
  - change (Nat.iter (S k) advance s) with (advance (Nat.iter k advance s)).
    rewrite advance_index, IH, iter_advance_sensorData.
    rewrite Nat.Div0.add_mod_idemp_l. f_equal. lia.
Qed.

(** C1.  On a non-empty store of [n] records, from a cursor [i < n]:
    advancing [k] times leaves the cursor at [(i + k) mod n], a valid index;
    advancing [n] times brings it back to [i], on the same record; and one
    advance computes [(i + 1) mod n]. *)
Theorem cursor_cycles (s : server) (i k : nat) :
  sensorData s ≠ [] →
  currentDataIndex s = i →
  (i < length (sensorData s))%nat →
  let n := length (sensorData s) in
  currentDataIndex (Nat.iter k advance s) = ((i + k) `mod` n)%nat
  ∧ (currentDataIndex (Nat.iter k advance s) < n)%nat
  ∧ currentDataIndex (Nat.iter n advance s) = i
  ∧ sensorData (Nat.iter n advance s) !! currentDataIndex (Nat.iter n advance s)
    = sensorData s !! i
  ∧ is_Some (sensorData s !! i)
  ∧ currentDataIndex (advance s) = ((i + 1) `mod` n)%nat.
Proof.
  intros _ <- Hi n.
  assert (Hn : currentDataIndex (Nat.iter n advance s) = currentDataIndex s).
  { rewrite iter_advance_index by done. fold n.
    rewrite <- (Nat.mul_1_l n) at 1. rewrite Nat.Div0.mod_add.
    by apply Nat.mod_small. }
  repeat split.
  - by apply iter_advance_index.
  - rewrite iter_advance_index by done. apply Nat.mod_upper_bound. fold n. lia.
  - done.
  - by rewrite Hn, iter_advance_sensorData.
  - by apply lookup_lt_is_Some.
Qed.

(** On the loaded server (three records, cursor 2): five advances, and three. *)
Lemma cursor_cycles_witness :
  currentDataIndex (Nat.iter 5 advance loaded) = 1%nat
  ∧ currentDataIndex (Nat.iter 3 advance loaded) = 2%nat.
Proof.
  destruct (cursor_cycles loaded 2 5) as (H1 & _ & H2 & _); [done|done|simpl; lia|].
  split; [exact H1|exact H2].
Defined.

(** ** The longest activation *)

Lemma foldl_pointwise {A B} (f g : A → B → A) (l : list B) (a : A) :
  (∀ a b, f a b = g a b) → foldl f a l = foldl g a l.
Proof.
  intros Hfg. revert a. induction l as [|b l IH]; intros a; simpl; [done|].
  by rewrite Hfg, IH.
Qed.

Lemma findLongestActivation_scan (l : list JS.number) :
  findLongestActivation l = fst (scan l).
Proof.
  unfold findLongestActivation, scan. f_equal.
  apply foldl_pointwise. by intros [m c] x.
Qed.

Lemma scan_snoc (l : list JS.number) (x : JS.number) :
  scan (l ++ [x]) = scan_step (scan l) x.
Proof. unfold scan. by rewrite foldl_snoc. Qed.

Lemma run_app_l (l : list JS.number) (x : JS.number) (i len : nat) :
  (i + len ≤ length l)%nat → run (l ++ [x]) i len ↔ run l i len.
Proof.
  intros Hle. unfold run. split; intros H j Hj.
  - destruct (H j Hj) as (y & Hy & Hact). exists y. split; [|done].
    rewrite lookup_app_l in Hy by lia. done.
  - destruct (H j Hj) as (y & Hy & Hact). exists y. split; [|done].
    rewrite lookup_app_l by lia. done.
Qed.

Lemma run_bound (l : list JS.number) (i len : nat) :
  run l i len → (0 < len)%nat → (i + len ≤ length l)%nat.
Proof.
  intros H Hlen. destruct (H (i + len - 1)%nat) as (y & Hy & _); [lia|].
  apply lookup_lt_Some in Hy. lia.
Qed.

Lemma scan_invariant (l : list JS.number) : scan_inv l (scan l).1 (scan l).2.
Proof.
  induction l as [|x l IH] using rev_ind.
  - split; simpl.
    + lia.
    + lia.
    + intros j Hj. lia.
    + intros i len Hlen _. lia.
    + exists 0%nat. split; [lia|]. intros j Hj. lia.
    + intros i len H. destruct len as [|len]; [lia|].
      destruct (H i) as (y & Hy & _); [lia|]. done.
  - rewrite scan_snoc. destruct (scan l) as [m c]. simpl in IH. destruct IH.
    unfold scan_step.
    destruct (0 <? x)%float eqn:Hx; simpl.
    + assert (Hsuffix : run (l ++ [x]) (length l + 1 - S c) (S c)).
      { intros j Hj. destruct (decide (j = length l)) as [->|Hne].
        - exists x. split; [|done]. by rewrite lookup_app_r, Nat.sub_diag by lia.
        - destruct (inv_cur_run0 j) as (y & Hy & Hact); [lia|].
          exists y. split; [|done]. by rewrite lookup_app_l by lia. }
      assert (Hsufmax : ∀ i len, (i + len = length l + 1)%nat →
                                 run (l ++ [x]) i len → (len ≤ S c)%nat).
      { intros i len Hlen H. destruct len as [|len]; [lia|].
        enough (len ≤ c)%nat by lia. apply (inv_cur_max0 i); [lia|].
        apply (run_app_l l x); [lia|]. intros j Hj. apply H. lia. }
      split; rewrite ?length_app; simpl length.
      * lia.
      * lia.
      * exact Hsuffix.
      * exact Hsufmax.
      * destruct (Nat.max_spec m (S c)) as [[_ ->]|[_ ->]].
        -- eexists. split; [|exact Hsuffix]. lia.
        -- destruct inv_max_run0 as (i & Hi & Hrun). exists i. split; [lia|].
           by apply run_app_l.
      * intros i len H. destruct (decide (len = 0%nat)) as [->|Hpos]; [lia|].
        pose proof (run_bound _ _ _ H ltac:(lia)) as Hb.
        rewrite length_app in Hb. simpl in Hb.
        destruct (decide (i + len = length l + 1)%nat) as [Hend|Hin].
        -- specialize (Hsufmax i len Hend H). lia.
        -- enough (len ≤ m)%nat by lia. apply (inv_max_max0 i).
           apply (run_app_l l x); [lia|done].
    + assert (Hlast : ∀ i len, (i + len = length l + 1)%nat →
                               run (l ++ [x]) i len → len = 0%nat).
      { intros i len Hlen H. destruct len as [|len]; [done|].
        destruct (H (length l)) as (y & Hy & Hact); [lia|].
        rewrite lookup_app_r, Nat.sub_diag in Hy by lia. simpl in Hy.
        injection Hy as <-. unfold active in Hact. congruence. }
      split; rewrite ?length_app; simpl length.
      * lia.
      * lia.
      * intros j Hj. lia.
      * intros i len Hlen H. rewrite (Hlast i len Hlen H). lia.
      * destruct inv_max_run0 as (i & Hi & Hrun). exists i. split; [lia|].
        by apply run_app_l.
      * intros i len H. destruct (decide (len = 0%nat)) as [->|Hpos]; [lia|].
        pose proof (run_bound _ _ _ H ltac:(lia)) as Hb.
        rewrite length_app in Hb. simpl in Hb.
        destruct (decide (i + len = length l + 1)%nat) as [Hend|Hin].
        -- specialize (Hlast i len Hend H). lia.
        -- apply (inv_max_max0 i). apply (run_app_l l x); [lia|done].
Qed.

(** C4.  [findLongestActivation] returns the length of the longest run of
    consecutive entries with [motion > 0]: some run has that length and no
    run is longer; the counter restarts from zero at an entry that is not
    positive.  It gives 3 on [0,1,1,0,1,1,1,0], 0 on [0,0,0] and 3 on
    [1,1,1]. *)
Theorem findLongestActivation_longest_run (motionData : list JS.number) :
  (∃ i, (i + findLongestActivation motionData ≤ length motionData)%nat
        ∧ run motionData i (findLongestActivation motionData))
  ∧ (∀ i len, run motionData i len → (len ≤ findLongestActivation motionData)%nat)
  ∧ (∀ x, active x = false →
          (scan (motionData ++ [x])).2 = 0%nat
          ∧ findLongestActivation (motionData ++ [x]) = findLongestActivation motionData)
  ∧ (∀ x, active x = true →
          (scan (motionData ++ [x])).2 = S (scan motionData).2
          ∧ findLongestActivation (motionData ++ [x])
            = Nat.max (findLongestActivation motionData) (S (scan motionData).2))
  ∧ findLongestActivation [0; 1; 1; 0; 1; 1; 1; 0]%float = 3%nat
  ∧ findLongestActivation [0; 0; 0]%float = 0%nat
  ∧ findLongestActivation [1; 1; 1]%float = 3%nat.
Proof.
  rewrite findLongestActivation_scan.
  destruct (scan_invariant motionData) as [_ _ _ _ Hrun Hmax].
  split; [exact Hrun|]. split; [exact Hmax|].
  split; [|split].
  - intros x Hx. rewrite findLongestActivation_scan, scan_snoc.
    destruct (scan motionData) as [m c]. unfold active in Hx. simpl. by rewrite Hx.
  - intros x Hx. rewrite findLongestActivation_scan, scan_snoc.
    destruct (scan motionData) as [m c]. unfold active in Hx. simpl. by rewrite Hx.
  - repeat split; vm_compute; reflexivity.
Qed.

(** ** Numbers: what the primitive operations do on each class of value *)

Lemma SFcompare_refl_finite (s : bool) (m : positive) (e : Z) :
  SFcompare (S754_finite s m e) (S754_finite s m e) = Some Eq.
Proof.
  pose proof (Z.compare_refl e) as He.
  pose proof (Pos.compare_cont_refl m Eq) as Hm.
  destruct s; simpl; rewrite He; f_equal.
  - change (CompOpp (Pos.compare_cont Eq m m) = Eq). by rewrite Hm.
  - exact Hm.
Qed.

Lemma isNaN_spec (x : JS.number) :
  JS.isNaN x = match Prim2SF x with S754_nan => true | _ => false end.
Proof.
  unfold JS.isNaN. rewrite FloatAxioms.eqb_spec. unfold SFeqb.
  destruct (Prim2SF x) as [[]|[]| |s m e]; try reflexivity.
  by rewrite SFcompare_refl_finite.
Qed.

Lemma eqb_zero_spec (x : JS.number) :
  (x =? 0)%float = match Prim2SF x with S754_zero _ => true | _ => false end.
Proof.
  rewrite FloatAxioms.eqb_spec. change (Prim2SF 0) with (S754_zero false).
  by destruct (Prim2SF x) as [[]|[]| |[] m e].
Qed.

Lemma truthy_spec (x : JS.number) :
  JS.truthy x = match Prim2SF x with S754_nan | S754_zero _ => false | _ => true end.
Proof.
  unfold JS.truthy. rewrite isNaN_spec, eqb_zero_spec.
  by destruct (Prim2SF x) as [[]|[]| |[] m e].
Qed.

Lemma truthy_not_NaN (x : JS.number) : JS.truthy x = true → JS.isNaN x = false.
Proof. unfold JS.truthy. by destruct (JS.isNaN x). Qed.

(** [a || b] is [NaN] only if [b] is. *)
Lemma or_not_NaN (a b : JS.number) : JS.isNaN b = false → JS.isNaN (JS.or a b) = false.
Proof.
  intros Hb. unfold JS.or. destruct (JS.truthy a) eqn:Ha; [|done].
  by apply truthy_not_NaN.
Qed.

Lemma ToIntegerOrInfinity_opp (x : JS.number) :
  JS.ToIntegerOrInfinity (- x)
  = match JS.ToIntegerOrInfinity x with
    | JS.Fin z => JS.Fin (- z)
    | JS.PosInf => JS.NegInf
    | JS.NegInf => JS.PosInf
    end.
Proof.
  unfold JS.ToIntegerOrInfinity. rewrite FloatAxioms.opp_spec.
  destruct (Prim2SF x) as [[]|[]| |[] m e]; simpl; try reflexivity.
  by rewrite Z.opp_involutive.
Qed.

(** ** Loading *)

(** C10.  After the aliases and the defaults, temperature and humidity are
    never [NaN]: the test of line 40 always passes, every row of the file is
    appended, and the store is the file's rows, processed, in order. *)
Theorem every_row_is_kept (ev : row_event) (store : list SensorRecord)
    (rows : list row_event) (s : server) :
  JS.isNaN (temperature (processRow ev)) = false
  ∧ JS.isNaN (humidity (processRow ev)) = false
  ∧ keeps (processRow ev) = true
  ∧ onData store ev = store ++ [processRow ev]
  ∧ sensorData (loadAllCSVData (File rows) s) = processRow <$> rows.
Proof.
  assert (Hkeep : ∀ ev, keeps (processRow ev) = true).
  { intros ev'. unfold keeps. simpl. by rewrite !or_not_NaN. }
  assert (Hdata : ∀ store ev, onData store ev = store ++ [processRow ev]).
  { intros store' ev'. unfold onData. by rewrite Hkeep. }
  split; [by apply or_not_NaN|]. split; [by apply or_not_NaN|].
  split; [done|]. split; [done|].
  simpl. change (processRow <$> rows) with ([] ++ (processRow <$> rows)).
  generalize (@nil SensorRecord) as acc.
  induction rows as [|r rows IH]; intros acc; simpl.
  - by rewrite app_nil_r.
  - rewrite IH, Hdata, <- app_assoc. done.
Qed.

(** C8, where the code departs from it.  A first alias that is present and
    reads as 0 is passed over: on [{temperature: "0", temp: "25"}] the stored
    temperature is 25, the value of the second alias. *)
Theorem zero_valued_alias_is_skipped :
  cells zero_then_alias !! "temperature" = Some "0"
  ∧ JS.parseFloat (Some "0") = 0%float
  ∧ temperature (processRow zero_then_alias) = 25%float.
Proof. repeat split; vm_compute; reflexivity. Qed.

(** ** The read endpoints on an empty store *)

(** C7, and where the code departs from it.  With an empty store the
    statistics endpoint answers status 200 with the error body, as do (with
    status 404) the two sibling endpoints; the recent-data endpoint has no
    such test and answers status 200 with an empty array, whatever the
    parameter.  None of them throws: each is a total function to a reply. *)
Theorem empty_store_replies (s : server) (param now : string) :
  sensorData s = [] →
  statistics s = {| status := 200; json := Error "No data available" |}
  ∧ allData s = {| status := 404; json := Error "No data available" |}
  ∧ currentData now s = {| status := 404; json := Error "No data available" |}
  ∧ recentData param s = {| status := 200; json := Records [] |}.
Proof.
  intros Hempty. unfold statistics, allData, currentData, recentData, slice.
  rewrite Hempty. simpl. repeat split. by rewrite drop_nil.
Qed.

(** On the server before any load. *)
Lemma empty_store_replies_witness :
  recentData "10" initial = {| status := 200; json := Records [] |}
  ∧ statistics initial = {| status := 200; json := Error "No data available" |}.
Proof.
  destruct (empty_store_replies initial "10" "") as (H1 & _ & _ & H2); [done|].
  split; [exact H2|exact H1].
Defined.

(** ** Recent data *)

Lemma last_n_suffix {A} (k : nat) (xs : list A) :
  take (length xs - k) xs ++ last_n k xs = xs
  ∧ length (last_n k xs) = Nat.min k (length xs).
Proof. unfold last_n. split; [apply take_drop|]. rewrite length_drop. lia. Qed.

(** C9 fails as stated: on a store of three records the parameter ["0"] gives
    all three (the default of 50 applies), not the last zero of them; ["-1"]
    gives the records after the first, and the invalid ["2x"] gives the last
    two instead of the default. *)
Lemma recentData_zero_negative_and_trailing_text :
  recentData "0" loaded = {| status := 200; json := Records three_records |}
  ∧ recentData "0" loaded ≠ {| status := 200; json := Records (last_n 0 three_records) |}
  ∧ recentData "-1" loaded = {| status := 200; json := Records (drop 1 three_records) |}
  ∧ recentData "2x" loaded = {| status := 200; json := Records (last_n 2 three_records) |}
  ∧ recentData "2x" loaded ≠ {| status := 200; json := Records (last_n 50 three_records) |}.
Proof.
  assert (H0 : recentData "0" loaded = {| status := 200; json := Records three_records |})
    by (vm_compute; reflexivity).
  assert (H2 : recentData "2x" loaded
               = {| status := 200; json := Records (last_n 2 three_records) |})
    by (vm_compute; reflexivity).
  split; [exact H0|]. split; [rewrite H0; vm_compute; discriminate|].
  split; [vm_compute; reflexivity|].
  split; [exact H2|]. rewrite H2. vm_compute. discriminate.
Qed.

(** C9, amended.  The parameter is read by [parseInt]: when that gives a
    positive integer [L] (the leading integer of the text), the reply is the
    last [L] records in stored order, all of them when the store has fewer;
    when it gives [NaN] (the text has no leading integer), the reply is the
    last 50 records. *)
Theorem recentData_last_records (s : server) (param : string) :
  (∀ L, 0 < L →
        JS.ToIntegerOrInfinity (JS.parseInt (Some param)) = JS.Fin L →
        recentData param s
        = {| status := 200; json := Records (last_n (Z.to_nat L) (sensorData s)) |})
  ∧ (JS.isNaN (JS.parseInt (Some param)) = true →
     recentData param s
     = {| status := 200; json := Records (last_n 50 (sensorData s)) |}).
Proof.
  unfold recentData, JS.or, slice, last_n. split.
  - intros L HL Hint.
    assert (Ht : JS.truthy (JS.parseInt (Some param)) = true).
    { rewrite truthy_spec. unfold JS.ToIntegerOrInfinity in Hint.
      destruct (Prim2SF (JS.parseInt (Some param))) as [[]|[]| |[] m e];
        try done; injection Hint as <-; lia. }
    rewrite Ht, ToIntegerOrInfinity_opp, Hint.
    destruct (Z.ltb_spec (- L) 0) as [_|?]; [|lia].
    do 3 f_equal. lia.
  - intros Hnan.
    assert (Hfalsy : JS.truthy (JS.parseInt (Some param)) = false)
      by (unfold JS.truthy; by rewrite Hnan).
    rewrite Hfalsy.
    assert (H50 : JS.ToIntegerOrInfinity (PrimFloat.opp 50) = JS.Fin (-50))
      by (vm_compute; reflexivity).
    rewrite H50. change (-50 <? 0) with true. cbv iota. do 3 f_equal. lia.
Qed.

(** On the loaded server, with the parameters ["2"] and ["abc"]. *)
Lemma recentData_last_records_witness :
  recentData "2" loaded = {| status := 200; json := Records (last_n 2 three_records) |}
  ∧ recentData "abc" loaded = {| status := 200; json := Records (last_n 50 three_records) |}.
Proof.
  destruct (recentData_last_records loaded "2") as [H1 _].
  destruct (recentData_last_records loaded "abc") as [_ H2].
  split.
  - apply (H1 2); [lia|vm_compute; reflexivity].
  - apply H2. vm_compute. reflexivity.
Defined.

(** ** Broadcasting *)

Lemma set_responses_same (rs : gmap nat response) (s : server) :
  rs = responses s → set_responses rs s = s.
Proof. intros ->. by destruct s. Qed.

Lemma writable_receive (fr : frame) (r : response) :
  writable (receive fr r) = writable r.
Proof. unfold receive. by destruct (writable r) eqn:Hw. Qed.

(** A write returns, and changes at most the response it is made on. *)
Lemma write_eq (fr : frame) (c : client) (s : server) :
  write (res c) fr s
  = (Returned tt, set_responses (alter (receive fr) (res c) (responses s)) s).
Proof.
  unfold write. destruct (responses s !! res c) as [r|] eqn:Hr.
  - destruct (writable r) eqn:Hw.
    + do 2 f_equal. apply map_eq. intros h.
      destruct (decide (h = res c)) as [->|Hne].
      * rewrite lookup_insert_eq, lookup_alter_eq, Hr. simpl.
        unfold receive, append_frame. by rewrite Hw.
      * by rewrite lookup_insert_ne, lookup_alter_ne.
    + f_equal. symmetry. apply set_responses_same, map_eq. intros h.
      destruct (decide (h = res c)) as [->|Hne].
      * rewrite lookup_alter_eq, Hr. simpl. unfold receive. by rewrite Hw.
      * by rewrite lookup_alter_ne.
  - f_equal. symmetry. apply set_responses_same, map_eq. intros h.
    destruct (decide (h = res c)) as [->|Hne].
    + by rewrite lookup_alter_eq, Hr.
    + by rewrite lookup_alter_ne.
Qed.

(** A write on a connection that is gone returns and changes nothing. *)
Lemma write_fails (fr : frame) (c : client) (s : server) :
  fails s c → write (res c) fr s = (Returned tt, s).
Proof. intros (r & Hr & Hw). unfold write. by rewrite Hr, Hw. Qed.

(** The loop of a broadcast visits every client and returns. *)
Lemma forEach_write (fr : frame) (cs : list client) (s : server) :
  forEach (λ client, write (res client) fr) cs s
  = (Returned tt, set_responses (delivered fr cs (responses s)) s).
Proof.
  revert s. induction cs as [|c cs IH]; intros s.
  - by destruct s.
  - simpl. unfold mbind, M_bind. by rewrite write_eq, IH.
Qed.

Lemma accepts_after (fr : frame) (cs : list client) (s : server) (c : client) :
  accepts (set_responses (delivered fr cs (responses s)) s) c ↔ accepts s c.
Proof.
  revert s. induction cs as [|c0 cs IH]; intros s.
  - by destruct s.
  - unfold delivered. simpl. fold (delivered fr cs (alter (receive fr) (res c0) (responses s))).
    specialize (IH (set_responses (alter (receive fr) (res c0) (responses s)) s)).
    simpl in IH. unfold accepts in *. simpl in *. rewrite IH. clear IH.
    destruct (decide (res c = res c0)) as [->|Hne].
    + rewrite lookup_alter_eq. destruct (responses s !! res c0) as [r|]; simpl.
      * split; intros (r' & Hr' & Hw).
        -- injection Hr' as <-. rewrite writable_receive in Hw. by exists r.
        -- injection Hr' as <-. exists (receive fr r). by rewrite writable_receive.
      * split; intros (r' & Hr' & _); done.
    + by rewrite lookup_alter_ne.
Qed.

Lemma delivered_lookup_notin (fr : frame) (cs : list client) (rs : gmap nat response) (h : nat) :
  h ∉ res <$> cs → delivered fr cs rs !! h = rs !! h.
Proof.
  revert rs. induction cs as [|c cs IH]; intros rs Hnotin; [done|].
  simpl in Hnotin. apply not_elem_of_cons in Hnotin as [Hne Hnotin].
  unfold delivered. simpl. fold (delivered fr cs (alter (receive fr) (res c) rs)).
  rewrite IH by done. by rewrite lookup_alter_ne.
Qed.

Lemma delivered_lookup_in (fr : frame) (cs : list client) (rs : gmap nat response) (c : client) :
  NoDup (res <$> cs) → c ∈ cs →
  delivered fr cs rs !! res c = receive fr <$> rs !! res c.
Proof.
  revert rs. induction cs as [|c0 cs IH]; intros rs Hnd Hin.
  - by apply elem_of_nil in Hin.
  - simpl in Hnd. apply NoDup_cons in Hnd as [Hfresh Hnd].
    unfold delivered. simpl. fold (delivered fr cs (alter (receive fr) (res c0) rs)).
    apply elem_of_cons in Hin as [->|Hin].
    + rewrite delivered_lookup_notin by done. by rewrite lookup_alter_eq.
    + rewrite IH by done. rewrite lookup_alter_ne; [done|].
      intros Heq. apply Hfresh. rewrite Heq. by apply list_elem_of_fmap_2.
Qed.

(** Each client whose connection is open gets the frame once. *)
Lemma delivered_lookup_accepts (fr : frame) (cs : list client) (s : server) (c : client) :
  NoDup (res <$> cs) → c ∈ cs → accepts s c →
  delivered fr cs (responses s) !! res c = append_frame fr <$> responses s !! res c.
Proof.
  intros Hnd Hin (r & Hr & Hw). rewrite delivered_lookup_in, Hr by done.
  simpl. unfold receive. by rewrite Hw.
Qed.


Lemma delivered_is_Some (fr : frame) (cs : list client) (rs : gmap nat response) (h : nat) :
  is_Some (rs !! h) → is_Some (delivered fr cs rs !! h).
Proof.
  revert rs. induction cs as [|c cs IH]; intros rs [r Hr]; [by exists r|].
  unfold delivered. simpl. fold (delivered fr cs (alter (receive fr) (res c) rs)).
  apply IH. destruct (decide (h = res c)) as [->|Hne].
  - rewrite lookup_alter_eq, Hr. by eexists.
  - rewrite lookup_alter_ne by done. by eexists.
Qed.

Lemma broadcastRealtimeData_unfold (data : envelope) (s : server) :
  broadcastRealtimeData data s
  = forEach (λ client, write (res client) {| type := "realtime_update"; data := data |})
      (realtimeConnections s) s.
Proof. reflexivity. Qed.




(** ** The scheduler tick *)

(** Writes only touch the heap of responses. *)
Lemma forEach_write_frame (fr : frame) (cs : list client) (s : server) :
  ∃ rs, (forEach (λ client, write (res client) fr) cs s).2 = set_responses rs s.
Proof. exists (delivered fr cs (responses s)). by rewrite forEach_write. Qed.

Lemma tick_nonempty (now : string) (s : server) :
  sensorData s ≠ [] →
  tick now s
  = broadcastRealtimeData
      {| fields := sensorData s !! currentDataIndex (advance s);
         realtime_timestamp := now;
         current_index := currentDataIndex (advance s);
         total_records := length (sensorData s) |}
      (advance s).
Proof.
  intros Hne. unfold tick, mbind, M_bind, get. simpl.
  destruct (decide (length (sensorData s) = 0%nat)) as [Hlen|Hlen]; [|done].
  by apply length_zero_iff_nil in Hlen.
Qed.

(** C5.  A tick on an empty store changes nothing, writes nothing and
    returns.  A tick on a non-empty store advances the cursor once and hands
    to [broadcastRealtimeData] the envelope of the record now under the
    cursor, the clock, the new index and the number of records; the store
    and the registry are untouched, and when every registered client accepts
    the write, each receives that envelope in one [realtime_update] frame. *)
Theorem tick_skips_or_advances_and_broadcasts (now : string) (s : server) :
  (sensorData s = [] → tick now s = (Returned tt, s))
  ∧ (sensorData s ≠ [] →
     let n := length (sensorData s) in
     let i := ((currentDataIndex s + 1) `mod` n)%nat in
     ∃ r, sensorData s !! i = Some r
       ∧ let data := {| fields := Some r; realtime_timestamp := now;
                        current_index := i; total_records := n |} in
         tick now s = broadcastRealtimeData data (advance s)
         ∧ currentDataIndex (tick now s).2 = i
         ∧ sensorData (tick now s).2 = sensorData s
         ∧ realtimeConnections (tick now s).2 = realtimeConnections s
         ∧ (NoDup (res <$> realtimeConnections s) →
            Forall (accepts s) (realtimeConnections s) →
            (tick now s).1 = Returned tt
            ∧ ∀ c, c ∈ realtimeConnections s →
                   responses (tick now s).2 !! res c
                   = append_frame {| type := "realtime_update"; data := data |}
                     <$> responses s !! res c)).
Proof.
  split.
  - intros Hempty. unfold tick, mbind, M_bind, get. simpl. by rewrite Hempty.
  - intros Hne n i.
    assert (Hi : (i < n)%nat).
    { apply Nat.mod_upper_bound. subst n. by destruct (sensorData s). }
    destruct (lookup_lt_is_Some_2 (sensorData s) i Hi) as [r Hr].
    exists r. split; [done|]. intros data.
    assert (Htick : tick now s = broadcastRealtimeData data (advance s)).
    { rewrite (tick_nonempty now s Hne), advance_index. fold n i. by rewrite Hr. }
    split; [done|]. rewrite Htick, broadcastRealtimeData_unfold.
    destruct (forEach_write_frame {| type := "realtime_update"; data := data |}
                (realtimeConnections (advance s)) (advance s)) as [rs Hrs].
    rewrite Hrs. split; [done|]. split; [done|]. split; [done|].
    intros Hnd Hall. rewrite <- Hrs. clear rs Hrs.
    rewrite forEach_write. simpl. split; [done|].
    intros c Hc. apply (delivered_lookup_accepts _ _ (advance s)); [done|done|].
    rewrite Forall_forall in Hall. by apply Hall.
Qed.

(** On the server before any load, and with three connected clients. *)
Lemma tick_skips_or_advances_and_broadcasts_witness :
  tick "2024-01-01T00:00:04.000Z" initial = (Returned tt, initial)
  ∧ currentDataIndex (tick "2024-01-01T00:00:04.000Z" connected).2 = 0%nat
  ∧ (tick "2024-01-01T00:00:04.000Z" connected).1 = Returned tt.
Proof.
  destruct (tick_skips_or_advances_and_broadcasts "2024-01-01T00:00:04.000Z" initial)
    as [Hskip _].
  destruct (tick_skips_or_advances_and_broadcasts "2024-01-01T00:00:04.000Z" connected)
    as [_ Hadv].
  split; [by apply Hskip|].
  destruct Hadv as (r & _ & _ & Hi & _ & _ & Hall); [done|].
  split; [exact Hi|]. apply Hall.
  - apply (bool_decide_unpack _). vm_compute. reflexivity.
  - repeat constructor; eexists; split; vm_compute; reflexivity.
Defined.

(** ** Numbers: exact cases of the arithmetic *)

Local Open Scope float_scope.

Lemma isFinite_cases (x : JS.number) :
  JS.isFinite x = true →
  (∃ s, Prim2SF x = S754_zero s) ∨ (∃ s m e, Prim2SF x = S754_finite s m e).
Proof.
  unfold JS.isFinite. destruct (Prim2SF x) as [s|s| |s m e]; try done.
  - left. by exists s.
  - right. by exists s, m, e.
Qed.

(** A finite [x] minus itself is [+0]. *)
Lemma sub_diag (x : JS.number) : JS.isFinite x = true → x - x = 0.
Proof.
  intros Hx. apply Prim2SF_inj. rewrite FloatAxioms.sub_spec.
  destruct (isFinite_cases x Hx) as [[s ->]|(s & m & e & ->)].
  - by destruct s.
  - unfold SF64sub, SFsub. rewrite Z.sub_diag. reflexivity.
Qed.

Lemma SFdiv_diag (s : bool) (m : positive) (e : Z) :
  SF64div (S754_finite s m e) (S754_finite s m e) = Prim2SF 1.
Proof.
  unfold SF64div, SFdiv, SFdiv_core_binary.
  replace (Zdigits2 (Z.pos m) + e - (Zdigits2 (Z.pos m) + e))%Z with 0%Z by lia.
  replace (e - e)%Z with 0%Z by lia.
  change (fexp prec emax 0 `min` 0)%Z with (-53)%Z.
  change (0 - -53)%Z with 53%Z.
  cbv iota beta zeta.
  rewrite Z.shiftl_mul_pow2 by lia.
  assert (Hd : Z.div_eucl (Z.pos m * 2 ^ 53) (Z.pos m) = (2 ^ 53, 0)%Z).
  { rewrite (Z.mul_comm (Z.pos m)).
    pose proof (Z.div_mul (2 ^ 53) (Z.pos m) ltac:(lia)) as Hq.
    pose proof (Z.mod_mul (2 ^ 53) (Z.pos m) ltac:(lia)) as Hr.
    unfold Z.div, Z.modulo in Hq, Hr.
    destruct (Z.div_eucl (2 ^ 53 * Z.pos m) (Z.pos m)) as [q r].
    simpl in Hq, Hr. by subst. }
  rewrite Hd, xorb_nilpotent.
  replace (new_location (Z.pos m) 0) with loc_Exact.
  - vm_compute. reflexivity.
  - unfold new_location. by destruct (Z.even (Z.pos m)).
Qed.

(** A finite non-zero [x] divided by itself is 1. *)
Lemma div_diag (x : JS.number) :
  JS.isFinite x = true → (x =? 0) = false → x / x = 1.
Proof.
  intros Hx Hnz. apply Prim2SF_inj. rewrite FloatAxioms.div_spec.
  rewrite eqb_zero_spec in Hnz.
  destruct (isFinite_cases x Hx) as [[s Hs]|(s & m & e & Hs)]; rewrite Hs in *; [done|].
  apply SFdiv_diag.
Qed.

(** A zero times a finite number is a zero, and so is its square root. *)
Lemma mul_zero_l (a b : JS.number) :
  is_zero a → JS.isFinite b = true → is_zero (a * b).
Proof.
  intros [s Ha] Hb. unfold is_zero. rewrite FloatAxioms.mul_spec, Ha.
  destruct (isFinite_cases b Hb) as [[s' ->]|(s' & m & e & ->)]; by eexists.
Qed.

Lemma mul_zero_r (a b : JS.number) :
  JS.isFinite a = true → is_zero b → is_zero (a * b).
Proof.
  intros Ha [s Hb]. unfold is_zero. rewrite FloatAxioms.mul_spec, Hb.
  destruct (isFinite_cases a Ha) as [[s' ->]|(s' & m & e & ->)]; by eexists.
Qed.

Lemma sqrt_zero (a : JS.number) : is_zero a → is_zero (sqrt a).
Proof.
  intros [s Ha]. unfold is_zero. rewrite FloatAxioms.sqrt_spec, Ha. by exists s.
Qed.

Lemma is_zero_eqb (a : JS.number) : is_zero a → (a =? 0) = true.
Proof. intros [s Ha]. by rewrite eqb_zero_spec, Ha. Qed.

(** The Number of a length below [2^53] is positive and finite. *)
Lemma digits2_pos_iter_xO (k p : positive) :
  digits2_pos (Pos.iter xO p k) = (digits2_pos p + k)%positive.
Proof.
  induction k as [|k IH] using Pos.peano_ind.
  - simpl. lia.
  - rewrite Pos.iter_succ. simpl. rewrite IH. lia.
Qed.

Lemma digits2_pos_bound (p : positive) (k : nat) :
  (Z.pos p < 2 ^ Z.of_nat k → Z.pos (digits2_pos p) ≤ Z.of_nat k)%Z.
Proof.
  revert p. induction k as [|k IH]; intros p Hp.
  - simpl in Hp. lia.
  - rewrite Nat2Z.inj_succ, Z.pow_succ_r in Hp by lia.
    destruct p as [p|p|]; simpl; [| |lia].
    + specialize (IH p). lia.
    + specialize (IH p). lia.
Qed.

Lemma binary_round_aux_canonical (s : bool) (m : positive) (e : Z) :
  Z.pos (digits2_pos m) = 53%Z → (-1074 ≤ e ≤ 971)%Z →
  binary_round_aux prec emax s (Z.pos m) e loc_Exact = S754_finite s m e.
Proof.
  intros Hd He.
  assert (Hshr : shr_fexp prec emax (Z.pos m) e loc_Exact
                 = ({| shr_m := Z.pos m; shr_r := false; shr_s := false |}, e)).
  { unfold shr_fexp, Zdigits2. rewrite Hd. unfold fexp, emin, prec, emax.
    replace (Z.max (53 + e - 53) (3 - 1024 - 53) - e)%Z with 0%Z by lia. reflexivity. }
  unfold binary_round_aux. rewrite Hshr. cbn [shr_m loc_of_shr_record round_nearest_even].
  rewrite Hshr. cbn [shr_m].
  destruct (Z.leb_spec e (emax - prec)) as [_|Hgt]; [done|].
  unfold emax, prec in Hgt. lia.
Qed.

Lemma binary_normalize_exact (p : positive) :
  (Z.pos (digits2_pos p) ≤ 53)%Z →
  ∃ m e, binary_normalize prec emax (Z.pos p) 0 false = S754_finite false m e.
Proof.
  intros Hd. unfold binary_normalize, binary_round, shl_align.
  unfold fexp, emin, prec, emax.
  replace (Z.max (Z.pos (digits2_pos p) + 0 - 53) (3 - 1024 - 53) - 0)%Z
    with (Z.pos (digits2_pos p) - 53)%Z by lia.
  destruct (Z.pos (digits2_pos p) - 53)%Z as [|d|d] eqn:Hdiff; [|lia|].
  - exists p, 0%Z. apply (binary_round_aux_canonical false p 0); lia.
  - eexists _, _. replace (Z.max _ _) with (Z.pos (digits2_pos p) - 53)%Z by lia.
    apply (binary_round_aux_canonical false); [|lia].
    rewrite digits2_pos_iter_xO. lia.
Qed.

Lemma of_nat_positive (n : nat) :
  (0 < Z.of_nat n < 2 ^ 53)%Z →
  ∃ m e, Prim2SF (JS.of_nat n) = S754_finite false m e.
Proof.
  intros Hn. unfold JS.of_nat. rewrite of_uint63_spec.
  change Uint63Axioms.to_Z with Uint63.to_Z.
  rewrite Uint63.of_Z_spec, Z.mod_small.
  - destruct (Z.of_nat n) as [|p|p] eqn:E; [lia| |lia].
    apply binary_normalize_exact. apply (digits2_pos_bound p 53). lia.
  - assert (H63 : (2 ^ 53 < wB)%Z) by reflexivity. lia.
Qed.

Lemma zero_div_of_nat (n : nat) : (0 < Z.of_nat n < 2 ^ 53)%Z → 0 / JS.of_nat n = 0.
Proof.
  intros Hn. apply Prim2SF_inj. rewrite FloatAxioms.div_spec.
  destruct (of_nat_positive n Hn) as (m & e & ->). reflexivity.
Qed.

(** ** Standard deviation *)

Lemma add_same_or_zeros (a b x : JS.number) :
  same_or_zeros a b → same_or_zeros (a + x) (b + x).
Proof.
  intros [->|[[sa Ha] [sb Hb]]]; [by left|].
  destruct (Prim2SF x) as [sx|sx| |sx mx ex] eqn:Hx.
  - right. unfold is_zero. rewrite !FloatAxioms.add_spec, Ha, Hb, Hx.
    split; [destruct sa, sx|destruct sb, sx]; by eexists.
  - left. apply Prim2SF_inj. by rewrite !FloatAxioms.add_spec, Ha, Hb, Hx.
  - left. apply Prim2SF_inj. by rewrite !FloatAxioms.add_spec, Ha, Hb, Hx.
  - left. apply Prim2SF_inj. by rewrite !FloatAxioms.add_spec, Ha, Hb, Hx.
Qed.

Lemma zero_add_same_or_zeros (x : JS.number) : same_or_zeros x (0 + x).
Proof.
  destruct (Prim2SF x) as [[]|sx| |sx mx ex] eqn:Hx.
  - right. split; [by exists true|]. exists false.
    by rewrite FloatAxioms.add_spec, Hx.
  - left. apply Prim2SF_inj. by rewrite FloatAxioms.add_spec, Hx.
  - left. apply Prim2SF_inj. by rewrite FloatAxioms.add_spec, Hx.
  - left. apply Prim2SF_inj. by rewrite FloatAxioms.add_spec, Hx.
  - left. apply Prim2SF_inj. by rewrite FloatAxioms.add_spec, Hx.
Qed.

Lemma foldl_add_same_or_zeros (xs : list JS.number) (a b : JS.number) :
  same_or_zeros a b →
  same_or_zeros (foldl (λ a b, a + b) a xs) (foldl (λ a b, a + b) b xs).
Proof.
  revert a b. induction xs as [|x xs IH]; intros a b Hab; simpl; [done|].
  apply IH. by apply add_same_or_zeros.
Qed.

(** The sum started from the first value (of the inner [reduce]) and the sum
    started from 0 differ at most in the sign of a zero. *)
Lemma reduce1_sum (xs : list JS.number) :
  xs ≠ [] → same_or_zeros (reduce1 (λ a b, a + b) xs) (sum xs).
Proof.
  destruct xs as [|x xs]; [done|]. intros _. unfold sum. simpl.
  apply foldl_add_same_or_zeros, zero_add_same_or_zeros.
Qed.

Lemma div_same_or_zeros (a b n : JS.number) :
  same_or_zeros a b → same_or_zeros (a / n) (b / n).
Proof.
  intros [->|[[sa Ha] [sb Hb]]]; [by left|].
  destruct (Prim2SF n) as [sn|sn| |sn mn en] eqn:Hn.
  - left. apply Prim2SF_inj. by rewrite !FloatAxioms.div_spec, Ha, Hb, Hn.
  - right. unfold is_zero. rewrite !FloatAxioms.div_spec, Ha, Hb, Hn. split; by eexists.
  - left. apply Prim2SF_inj. by rewrite !FloatAxioms.div_spec, Ha, Hb, Hn.
  - right. unfold is_zero. rewrite !FloatAxioms.div_spec, Ha, Hb, Hn. split; by eexists.
Qed.

(** The squared deviation does not see the sign of a zero mean. *)
Lemma squared_deviation_same_or_zeros (v m m' : JS.number) :
  same_or_zeros m m' → JS.pow2 (v - m) = (v - m') * (v - m').
Proof.
  unfold JS.pow2. intros [->|[[s Hm] [s' Hm']]]; [done|].
  apply Prim2SF_inj. rewrite !FloatAxioms.mul_spec, !FloatAxioms.sub_spec, Hm, Hm'.
  destruct (Prim2SF v) as [sv|sv| |sv mv ev]; try reflexivity.
  by destruct sv, s, s'.
Qed.

Lemma foldl_fmap_sum {A} (g : A → JS.number) (xs : list A) (acc : JS.number) :
  foldl (λ a b, a + b) acc (g <$> xs) = foldl (λ a x, a + g x) acc xs.
Proof. revert acc. induction xs as [|x xs IH]; intros acc; simpl; [done|]. apply IH. Qed.

(** The [std] field is the population standard deviation about the mean. *)
Lemma std_of_population_std (xs : list JS.number) : std_of xs = population_std xs.
Proof.
  destruct (decide (xs = [])) as [->|Hne]; [reflexivity|].
  unfold std_of, population_std, sum at 1. rewrite foldl_fmap_sum.
  do 2 f_equal. apply foldl_pointwise. intros sq n. f_equal.
  apply squared_deviation_same_or_zeros, div_same_or_zeros, reduce1_sum, Hne.
Qed.

Lemma sum_replicate_zero (n : nat) : sum (replicate n 0) = 0.
Proof.
  unfold sum. induction n as [|n IH]; [done|]. simpl.
  change (0 + 0) with 0. exact IH.
Qed.

(** When the mean of [n] equal values comes out as that value, the
    deviation is [+0]. *)
Lemma population_std_constant (v : JS.number) (n : nat) :
  (0 < Z.of_nat n < 2 ^ 53)%Z →
  JS.isFinite v = true →
  mean (replicate n v) = v →
  population_std (replicate n v) = 0.
Proof.
  intros Hn Hv Hmean. unfold population_std. rewrite Hmean.
  rewrite fmap_replicate, (sub_diag v Hv), length_replicate.
  change (0 * 0) with 0. rewrite sum_replicate_zero, (zero_div_of_nat n Hn).
  reflexivity.
Qed.

(** C3 fails as stated: for three records of temperature 0.1 the sum
    [0.1 + 0.1 + 0.1] rounds to [0.30000000000000004], the mean to
    [0.10000000000000002], and the reported [std] is [2^-56] (about
    [1.39e-17]), not 0. *)
Lemma std_of_equal_values_not_zero :
  temperature <$> sensorData three_tenths = [0.1; 0.1; 0.1]
  ∧ (∃ st, statistics three_tenths = {| status := 200; json := Statistics st |}
           ∧ Series.std (stats_temperature st) = 0x1p-56
           ∧ (Series.std (stats_temperature st) =? 0) = false).
Proof.
  split; [vm_compute; reflexivity|].
  eexists. split; [reflexivity|]. split; vm_compute; reflexivity.
Qed.

(** C3, amended.  On a non-empty store the [std] of temperature and of
    humidity is the population standard deviation of the series in binary64
    arithmetic: the squared deviations from the mean of the same series (the
    reported [avg]) are summed in stored order, divided by [n], and the
    square root is taken.  For a series whose values all equal a finite [v]
    the result is exactly 0 whenever the computed mean is [v] itself. *)
Theorem std_is_population_std (s : server) :
  sensorData s ≠ [] →
  (Z.of_nat (length (sensorData s)) < 2 ^ 53)%Z →
  ∃ st, statistics s = {| status := 200; json := Statistics st |}
    ∧ Series.std (stats_temperature st) = population_std (temperature <$> sensorData s)
    ∧ Series.std (stats_humidity st) = population_std (humidity <$> sensorData s)
    ∧ Series.avg (stats_temperature st) = mean (temperature <$> sensorData s)
    ∧ Series.avg (stats_humidity st) = mean (humidity <$> sensorData s)
    ∧ (∀ v, JS.isFinite v = true →
            (∀ r, r ∈ sensorData s → temperature r = v) →
            mean (temperature <$> sensorData s) = v →
            Series.std (stats_temperature st) = 0)
    ∧ (∀ v, JS.isFinite v = true →
            (∀ r, r ∈ sensorData s → humidity r = v) →
            mean (humidity <$> sensorData s) = v →
            Series.std (stats_humidity st) = 0).
Proof.
  intros Hne Hlen.
  assert (Hconst : ∀ (f : SensorRecord → JS.number) v,
             JS.isFinite v = true →
             (∀ r, r ∈ sensorData s → f r = v) →
             mean (f <$> sensorData s) = v →
             std_of (f <$> sensorData s) = 0).
  { intros f v Hv Hall Hmean.
    assert (Hrep : f <$> sensorData s = replicate (length (sensorData s)) v).
    { symmetry. apply replicate_as_Forall. split; [by rewrite length_fmap|].
      apply Forall_fmap, Forall_forall. intros r Hr. simpl. symmetry. by apply Hall. }
    rewrite std_of_population_std, Hrep. rewrite Hrep in Hmean.
    apply population_std_constant; [|done|done].
    split; [|done]. destruct (sensorData s); [done|]. simpl. lia. }
  exists (computeStats (sensorData s)). split.
  - unfold statistics.
    destruct (decide (length (sensorData s) = 0%nat)) as [Hz|_]; [|done].
    by apply length_zero_iff_nil in Hz.
  - simpl. rewrite !std_of_population_std.
    split; [done|]. split; [done|]. split; [done|]. split; [done|].
    rewrite <- !std_of_population_std. split; intros v; apply Hconst.
Qed.

(** On the loaded server, whose humidity is 40 throughout. *)
Lemma std_is_population_std_witness :
  ∃ st, statistics loaded = {| status := 200; json := Statistics st |}
        ∧ Series.std (stats_humidity st) = 0.
Proof.
  destruct (std_is_population_std loaded) as (st & Hst & _ & _ & _ & _ & _ & Hhum).
  - done.
  - reflexivity.
  - exists st. split; [exact Hst|]. apply (Hhum 40).
    + reflexivity.
    + intros r Hr. unfold loaded, three_records in Hr. simpl in Hr.
      repeat (apply elem_of_cons in Hr as [->|Hr]; [reflexivity|]).
      by apply elem_of_nil in Hr.
    + vm_compute. reflexivity.
Defined.

(** ** Correlation *)

(** The indexed [reduce] of line 229 pairs the values position by position. *)
Lemma reduce_i_zip_with (x y : list JS.number) (acc : JS.number) (i0 : nat) :
  (length x + i0 ≤ length y)%nat →
  reduce_i (λ sum val i, sum + val * at_index y i) acc x i0
  = foldl (λ a b, a + b) acc (zip_with (λ a b, a * b) x (drop i0 y)).
Proof.
  revert acc i0. induction x as [|v x IH]; intros acc i0 Hlen.
  - by destruct (drop i0 y).
  - simpl in Hlen. destruct (lookup_lt_is_Some_2 y i0 ltac:(lia)) as [w Hw].
    rewrite (drop_S y w i0 Hw). cbn [reduce_i zip_with foldl].
    assert (Hat : at_index y i0 = w) by (unfold at_index; by rewrite Hw).
    rewrite Hat. apply IH. lia.
Qed.

Lemma calculateCorrelation_denominator (x y : list JS.number) :
  calculateCorrelation x y
  = if pearson_denominator x y =? 0 then Num 0
    else Str (JS.toFixed
                ((JS.of_nat (length x)
                  * reduce_i (λ sum val i, sum + val * at_index y i) 0 x 0
                  - sum x * sum y) / pearson_denominator x y) 3).
Proof.
  unfold calculateCorrelation, pearson_denominator, variance_term, sum.
  by rewrite !foldl_fmap_sum.
Qed.

Lemma calculateCorrelation_pearson (x y : list JS.number) :
  length x = length y →
  calculateCorrelation x y
  = if pearson_denominator x y =? 0 then Num 0
    else Str (JS.toFixed (pearson_numerator x y / pearson_denominator x y) 3).
Proof.
  intros Hlen. rewrite calculateCorrelation_denominator.
  rewrite reduce_i_zip_with by lia. reflexivity.
Qed.

(** [toFixed(3)] prints the integer number of thousandths nearest to the
    magnitude (halves go up). *)
Lemma toFixed_nearest (r : JS.number) (s : bool) (m : positive) (e : Z) :
  Prim2SF r = S754_finite s m e →
  (0 <=? e)%Z && (10 ^ 21 <=? Z.pos m * 2 ^ e)%Z = false →
  ∃ n : Z,
    JS.toFixed r 3 = ((if s then "-" else "") +:+ JS.fixed_digits n 3)%string
    ∧ ((0 ≤ e)%Z → n = (1000 * (Z.pos m * 2 ^ e))%Z)
    ∧ ((e < 0)%Z → (2 * n - 1) * 2 ^ (- e) ≤ 2 * (1000 * Z.pos m) < (2 * n + 1) * 2 ^ (- e))%Z.
Proof.
  intros Hr Hsmall. unfold JS.toFixed. rewrite Hr, Hsmall. eexists. split; [reflexivity|].
  change (10 ^ Z.of_nat 3)%Z with 1000%Z.
  destruct (Z.leb_spec 0 e) as [He|He]; split; try lia.
  intros _. assert (Hq : (0 < 2 ^ (- e))%Z) by (apply Z.pow_pos_nonneg; lia).
  pose proof (Z.div_mod (2 * (Z.pos m * 1000) + 2 ^ (- e)) (2 * 2 ^ (- e)) ltac:(lia)) as Hdm.
  pose proof (Z.mod_pos_bound (2 * (Z.pos m * 1000) + 2 ^ (- e)) (2 * 2 ^ (- e)) ltac:(lia)) as Hb.
  nia.
Qed.

(** C2 fails as stated: rounding leaves [n * Σx² - (Σx)²] at [2^-52] for the
    constant series [0.3, 0.3, 0.3] and at about [-4.5e-13] for
    [21.3, 21.3, 21.3], so two constant series give ["1.000"] or ["NaN"]
    instead of 0; and it cancels to 0 for the non-constant series
    [100000000, 100000001], whose correlation with itself is the number 0
    instead of ["1.000"]. *)
Lemma correlation_of_constant_series_not_zero :
  variance_term 3 [0.3; 0.3; 0.3] = 0x1p-52
  ∧ calculateCorrelation [0.3; 0.3; 0.3] [0.3; 0.3; 0.3] = Str "1.000"
  ∧ calculateCorrelation [21.3; 21.3; 21.3] [0.3; 0.3; 0.3] = Str "NaN"
  ∧ calculateCorrelation [100000000; 100000001] [100000000; 100000001] = Num 0.
Proof. repeat split; vm_compute; reflexivity. Qed.

(** C2, amended.  For two series of equal length the result is Pearson's
    coefficient [(n Σxy - Σx Σy) / sqrt ((n Σx² - (Σx)²) (n Σy² - (Σy)²))],
    every operation rounded to binary64 and the sums taken in stored order,
    printed by [toFixed(3)] (the nearest number of thousandths); it is the
    number 0 whenever the computed denominator is zero.  In particular it is
    0 when the computed term [n Σx² - (Σx)²] of one series is a zero and that
    of the other is finite, and the correlation of a series with itself is
    ["1.000"] when its computed term [v] is finite, not zero, and
    [sqrt (v * v)] is [v]. *)
Theorem calculateCorrelation_is_pearson (x y : list JS.number) :
  length x = length y →
  let n := JS.of_nat (length x) in
  calculateCorrelation x y
  = (if pearson_denominator x y =? 0 then Num 0
     else Str (JS.toFixed (pearson_numerator x y / pearson_denominator x y) 3))
  ∧ (∀ r s m e,
       Prim2SF r = S754_finite s m e →
       (0 <=? e)%Z && (10 ^ 21 <=? Z.pos m * 2 ^ e)%Z = false →
       ∃ k : Z,
         JS.toFixed r 3 = ((if s then "-" else "") +:+ JS.fixed_digits k 3)%string
         ∧ ((0 ≤ e)%Z → k = (1000 * (Z.pos m * 2 ^ e))%Z)
         ∧ ((e < 0)%Z →
            (2 * k - 1) * 2 ^ (- e) ≤ 2 * (1000 * Z.pos m) < (2 * k + 1) * 2 ^ (- e))%Z)
  ∧ ((pearson_denominator x y =? 0) = true → calculateCorrelation x y = Num 0)
  ∧ (is_zero (variance_term n x) → JS.isFinite (variance_term n y) = true →
     calculateCorrelation x y = Num 0)
  ∧ (JS.isFinite (variance_term n x) = true → is_zero (variance_term n y) →
     calculateCorrelation x y = Num 0)
  ∧ (JS.isFinite (variance_term n x) = true →
     (variance_term n x =? 0) = false →
     sqrt (variance_term n x * variance_term n x) = variance_term n x →
     calculateCorrelation x x = Str "1.000").
Proof.
  intros Hlen n.
  split; [by apply calculateCorrelation_pearson|].
  split; [apply toFixed_nearest|].
  split; [|split; [|split]].
  - intros Hden. by rewrite calculateCorrelation_denominator, Hden.
  - intros Hx Hy. rewrite calculateCorrelation_denominator.
    pose proof (is_zero_eqb _ (sqrt_zero _ (mul_zero_l _ _ Hx Hy))) as Hden.
    change (sqrt (variance_term n x * variance_term n y))
      with (pearson_denominator x y) in Hden.
    by rewrite Hden.
  - intros Hx Hy. rewrite calculateCorrelation_denominator.
    pose proof (is_zero_eqb _ (sqrt_zero _ (mul_zero_r _ _ Hx Hy))) as Hden.
    change (sqrt (variance_term n x * variance_term n y))
      with (pearson_denominator x y) in Hden.
    by rewrite Hden.
  - intros Hfin Hnz Hsqrt. rewrite calculateCorrelation_pearson by done.
    assert (Hnum : pearson_numerator x x = variance_term n x).
    { unfold pearson_numerator, variance_term. by rewrite zip_with_diag. }
    assert (Hden : pearson_denominator x x = variance_term n x) by exact Hsqrt.
    rewrite Hnum, Hden, Hnz, (div_diag _ Hfin Hnz). reflexivity.
Qed.

(** On [1, 2, 3] with itself, and on a constant series whose sums are exact. *)
Lemma calculateCorrelation_is_pearson_witness :
  calculateCorrelation [1; 2; 3] [1; 2; 3] = Str "1.000"
  ∧ calculateCorrelation [22.5; 22.5; 22.5] [1; 2; 3] = Num 0.
Proof.
  destruct (calculateCorrelation_is_pearson [1; 2; 3] [1; 2; 3])
    as (_ & _ & _ & _ & _ & Hself); [reflexivity|].
  destruct (calculateCorrelation_is_pearson [22.5; 22.5; 22.5] [1; 2; 3])
    as (_ & _ & _ & Hzero & _); [reflexivity|].
  split.
  - apply Hself; vm_compute; reflexivity.
  - apply Hzero; [exists false|]; vm_compute; reflexivity.
Defined.

(** * Further properties of the script *)

Local Close Scope float_scope.

(** ** The registry and the cursor in every reachable state *)

Lemma subscribe_eq (t : Z) (now : string) (s : server) :
  let h := fresh (dom (responses s)) in
  let c := {| client_id := t; res := h |} in
  subscribe t now s
  = (Returned c,
     set_connections (realtimeConnections s ++ [c])
       (set_responses
          (<[h := {| writable := true; written := initial_frames now s |}]> (responses s)) s)).
Proof.
  intros h c. unfold subscribe, initial_frames, mbind, M_bind, get, put, mret, M_ret.
  fold h. simpl.
  destruct (decide (0 < length (sensorData s))%nat) as [Hpos|Hzero]; simpl.
  - unfold write. simpl. rewrite lookup_insert_eq. simpl.
    rewrite insert_insert_eq. reflexivity.
  - reflexivity.
Qed.

(** Writes keep every response of the heap, and touch nothing else. *)
Lemma forEach_write_heap (fr : frame) (cs : list client) (s : server) :
  ∃ rs, (forEach (λ client, write (res client) fr) cs s).2 = set_responses rs s
        ∧ ∀ h, is_Some (responses s !! h) → is_Some (rs !! h).
Proof.
  exists (delivered fr cs (responses s)). split; [by rewrite forEach_write|].
  intros h. apply delivered_is_Some.
Qed.

(** A tick leaves the store and the registry alone, keeps every response,
    and on a non-empty store moves the cursor one record on. *)
Lemma tick_state (now : string) (s : server) :
  ∃ rs, (tick now s).2
        = set_responses rs (if decide (sensorData s = []) then s else advance s)
        ∧ ∀ h, is_Some (responses s !! h) → is_Some (rs !! h).
Proof.
  destruct (decide (sensorData s = [])) as [Hempty|Hne].
  - exists (responses s). split; [|done].
    unfold tick, mbind, M_bind, get. simpl. rewrite Hempty. simpl. by destruct s.
  - rewrite (tick_nonempty now s Hne), broadcastRealtimeData_unfold.
    match goal with
    | |- context [forEach ?f ?cs (advance s)] =>
        destruct (forEach_write_heap
                    {| type := "realtime_update";
                       data := {| fields := sensorData s !! currentDataIndex (advance s);
                                  realtime_timestamp := now;
                                  current_index := currentDataIndex (advance s);
                                  total_records := length (sensorData s) |} |}
                    cs (advance s)) as (rs & Hrs & Hsome)
    end.
    exists rs. split; [exact Hrs|exact Hsome].
Qed.

(** Only a row that is read changes the store. *)
Lemma step_sensorData (s : server) (e : event) :
  sensorData (step s e)
  = if e is RowRead ev then onData (sensorData s) ev else sensorData s.
Proof.
  destruct e as [now|t now|c|h|ev| |]; simpl; try done.
  - destruct (tick_state now s) as (rs & -> & _). by destruct (decide (sensorData s = [])).
  - by rewrite subscribe_eq.
Qed.

(** Only a tick moves the cursor. *)
Lemma step_currentDataIndex (s : server) (e : event) :
  currentDataIndex (step s e)
  = if e is Tick now then currentDataIndex (tick now s).2 else currentDataIndex s.
Proof.
  destruct e as [now|t now|c|h|ev| |]; simpl; try done.
  by rewrite subscribe_eq.
Qed.

Lemma onData_cases (store : list SensorRecord) (ev : row_event) :
  onData store ev = store ∨ onData store ev = store ++ [processRow ev].
Proof. unfold onData. destruct (keeps (processRow ev)); [by right|by left]. Qed.

(** The cursor stays on a record, and at 0 as long as there is none: rows
    are only added, at the end. *)
Lemma step_cursor_valid (s : server) (e : event) :
  cursor_valid s ∧ (sensorData s = [] → currentDataIndex s = 0%nat) →
  cursor_valid (step s e) ∧ (sensorData (step s e) = [] → currentDataIndex (step s e) = 0%nat).
Proof.
  intros [Hvalid Hrest]. unfold cursor_valid in *.
  rewrite step_sensorData, step_currentDataIndex.
  destruct e as [now|t now|c|h|ev| |]; try done.
  - destruct (tick_state now s) as (rs & -> & _).
    destruct (decide (sensorData s = [])) as [Hempty|Hne]; [done|].
    split; [|done]. intros _. simpl. apply Nat.mod_upper_bound. by destruct (sensorData s).
  - destruct (onData_cases (sensorData s) ev) as [->| ->]; [done|]. split.
    + intros _. rewrite length_app. simpl.
      destruct (sensorData s) as [|r0 rs] eqn:Hstore.
      * rewrite Hrest by done. simpl. lia.
      * assert (Hlt : (currentDataIndex s < length (r0 :: rs))%nat) by by apply Hvalid.
        lia.
    + intros Hnil. by apply app_nil in Hnil as [_ Hnil].
Qed.

Lemma registry_wf_fresh (s : server) :
  registry_wf s → fresh (dom (responses s)) ∉ res <$> realtimeConnections s.
Proof.
  intros [_ Hheap] Hin. apply list_elem_of_fmap in Hin as (c & Hc & Hin).
  rewrite Forall_forall in Hheap. specialize (Hheap c Hin).
  rewrite <- Hc in Hheap. apply elem_of_dom in Hheap.
  by apply is_fresh in Hheap.
Qed.

Lemma step_registry_wf (s : server) (e : event) :
  registry_wf s → registry_wf (step s e).
Proof.
  intros Hs. pose proof Hs as [Hnd Hheap].
  destruct e as [now|t now|c|h|ev| |]; simpl; [| | | |done..].
  - destruct (tick_state now s) as (rs & -> & Hsome).
    assert (Hreg : realtimeConnections
                     (set_responses rs (if decide (sensorData s = []) then s else advance s))
                   = realtimeConnections s)
      by (by destruct (decide (sensorData s = []))).
    split; rewrite Hreg; [done|].
    eapply Forall_impl; [exact Hheap|]. intros c Hc. by apply Hsome.
  - rewrite subscribe_eq. split; simpl.
    + rewrite fmap_app. apply NoDup_app. split; [done|]. split.
      * intros h Hh Hin. apply list_elem_of_singleton in Hin as ->.
        by apply (registry_wf_fresh s Hs).
      * apply NoDup_singleton.
    + apply Forall_app. split.
      * eapply Forall_impl; [exact Hheap|]. intros c [r Hr]. simpl.
        destruct (decide (res c = fresh (dom (responses s)))) as [->|Hne].
        -- rewrite lookup_insert_eq. by eexists.
        -- rewrite lookup_insert_ne by done. by eexists.
      * apply Forall_singleton. simpl. rewrite lookup_insert_eq. by eexists.
  - unfold onClose. split; simpl.
    + apply (sublist_NoDup _ (res <$> realtimeConnections s)); [done|].
      apply fmap_sublist, sublist_filter.
    + rewrite Forall_forall in Hheap |- *. intros c' Hc'.
      apply list_elem_of_filter in Hc' as [_ Hc']. by apply Hheap.
  - unfold streamClosed. split; simpl; [done|].
    eapply Forall_impl; [exact Hheap|]. intros c [r Hr].
    cbn [responses set_responses].
    destruct (decide (h = res c)) as [->|Hne].
    + rewrite lookup_alter_eq, Hr. by eexists.
    + rewrite lookup_alter_ne by done. by eexists.
Qed.

(** The store after a run is what the [data] handler makes of the rows read
    during the run, whatever else happened in between. *)
Lemma run_events_sensorData (es : list event) (s : server) :
  sensorData (run_events es s) = foldl onData (sensorData s) (rows_read es).
Proof.
  revert s. induction es as [|e es IH]; intros s; [done|].
  unfold run_events in *. simpl. rewrite IH, step_sensorData.
  by destruct e.
Qed.

Lemma run_events_invariants (es : list event) (s : server) :
  cursor_valid s ∧ (sensorData s = [] → currentDataIndex s = 0%nat) →
  registry_wf s →
  (cursor_valid (run_events es s)
   ∧ (sensorData (run_events es s) = [] → currentDataIndex (run_events es s) = 0%nat))
  ∧ registry_wf (run_events es s).
Proof.
  revert s. induction es as [|e es IH]; intros s Hc Hr; [done|].
  apply (IH (step s e) (step_cursor_valid s e Hc) (step_registry_wf s e Hr)).
Qed.

Lemma listening_initial (file_exists : bool) : listening file_exists = initial.
Proof. by destruct file_exists. Qed.

(** Reading the file with nothing in between is [loadAllCSVData] as one
    step. *)
Lemma startup_read_events (file : csv_file) :
  startup file
  = run_events (read_events file) (listening (if file is Missing then false else true)).
Proof.
  assert (Hrows : ∀ rows s,
            run_events (RowRead <$> rows) s
            = set_sensorData (foldl onData (sensorData s) rows) s).
  { intros rows. induction rows as [|ev rows IH]; intros s; [by destruct s|].
    unfold run_events in *. simpl. by rewrite IH. }
  assert (Happ : ∀ es1 es2 s, run_events (es1 ++ es2) s = run_events es2 (run_events es1 s)).
  { intros es1 es2 s. unfold run_events. apply foldl_app. }
  destruct file as [|rows|rows]; [done| |]; unfold read_events; by rewrite Happ, Hrows.
Qed.

(** X1.  In every state the server reaches once it listens -- whatever rows
    of the file have been read so far, whether the file has ended, failed or
    is still being read, and whatever ticks, connections, disconnections and
    lost connections come in between --: the store holds what the [data]
    handler made of the rows read so far, in their order; the cursor
    designates a record whenever there is one and is 0 as long as there is
    none, so that the current-data endpoint answers with a record as soon as
    one row has been kept; no client is registered twice and every
    registered client has its response. *)
Theorem reachable_invariants (file_exists : bool) (es : list event) (now : string) :
  let s := run_events es (listening file_exists) in
  sensorData s = foldl onData [] (rows_read es)
  ∧ cursor_valid s
  ∧ (sensorData s = [] → currentDataIndex s = 0%nat)
  ∧ registry_wf s
  ∧ (sensorData s ≠ [] →
     ∃ r, sensorData s !! currentDataIndex s = Some r
          ∧ currentData now s
            = {| status := 200;
                 json := Current {| fields := Some r;
                                    realtime_timestamp := now;
                                    current_index := currentDataIndex s;
                                    total_records := length (sensorData s) |} |}).
Proof.
  intros s. subst s. rewrite listening_initial.
  destruct (run_events_invariants es initial) as ((Hc & H0) & Hr).
  { split; [by intros Hne|done]. }
  { split; simpl; constructor. }
  set (s := run_events es initial) in *.
  split; [apply run_events_sensorData|]. split; [done|]. split; [done|]. split; [done|].
  intros Hne. destruct (lookup_lt_is_Some_2 _ _ (Hc Hne)) as [r Hr'].
  exists r. split; [done|]. unfold currentData.
  destruct (decide (length (sensorData s) = 0%nat)) as [Hz|_].
  - by apply length_zero_iff_nil in Hz.
  - by rewrite Hr'.
Qed.

(** ** Connecting and disconnecting *)

(** X2.  A connection returns normally and registers exactly one new client,
    at the end of the registry, under a response no client had; that
    response holds the [initial_data] frame of what the current-data
    endpoint answers at that moment, or nothing when the store is empty; no
    other response, the store and the cursor are untouched. *)
Theorem subscribe_registers_once (t : Z) (now : string) (s : server) :
  registry_wf s →
  let h := fresh (dom (responses s)) in
  let c := {| client_id := t; res := h |} in
  let s' := (subscribe t now s).2 in
  (subscribe t now s).1 = Returned c
  ∧ realtimeConnections s' = realtimeConnections s ++ [c]
  ∧ (h ∉ res <$> realtimeConnections s)
  ∧ responses s !! h = None
  ∧ (∃ frames, responses s' !! h = Some {| writable := true; written := frames |}
       ∧ (sensorData s = [] → frames = [])
       ∧ (∀ e, currentData now s = {| status := 200; json := Current e |} →
               frames = [{| type := "initial_data"; data := e |}])
       ∧ (sensorData s ≠ [] → ∃ e, currentData now s = {| status := 200; json := Current e |}))
  ∧ (∀ h', h' ≠ h → responses s' !! h' = responses s !! h')
  ∧ sensorData s' = sensorData s
  ∧ currentDataIndex s' = currentDataIndex s.
Proof.
  intros Hwf h c s'. subst s'. rewrite subscribe_eq. fold h c. simpl.
  split; [done|]. split; [done|]. split; [by apply registry_wf_fresh|].
  split; [apply not_elem_of_dom, is_fresh|].
  split; [|split; [|done]].
  - exists (initial_frames now s). rewrite lookup_insert_eq. split; [done|].
    unfold initial_frames, currentData.
    destruct (sensorData s) as [|r0 rs] eqn:Hstore; simpl.
    + split; [done|]. split; [intros e He; discriminate He|done].
    + split; [done|]. split; [by intros e [= <-]|]. intros _. by eexists.
  - intros h' Hne. by rewrite lookup_insert_ne.
Qed.

(** With three clients connected, a fourth one connects. *)
Lemma subscribe_registers_once_witness :
  realtimeConnections (subscribe 1704067205000 "2024-01-01T00:00:05.000Z" connected).2
  = realtimeConnections connected ++ [{| client_id := 1704067205000; res := 3 |}].
Proof.
  destruct (subscribe_registers_once 1704067205000 "2024-01-01T00:00:05.000Z" connected)
    as (_ & H & _).
  - split; apply (bool_decide_unpack _); vm_compute; reflexivity.
  - exact H.
Defined.

(** ** The stream a client receives *)

Lemma tick_accepted (now : string) (s : server) :
  sensorData s ≠ [] →
  Forall (accepts s) (realtimeConnections s) →
  tick now s
  = (Returned tt,
     set_responses
       (delivered (update_frame (sensorData s) (currentDataIndex s) 0 now)
          (realtimeConnections s) (responses s))
       (advance s)).
Proof.
  intros Hne Hall. rewrite (tick_nonempty now s Hne), broadcastRealtimeData_unfold.
  by rewrite forEach_write.
Qed.

Lemma update_frame_shift (store : list SensorRecord) (i j : nat) (now : string) :
  update_frame store ((i + 1) `mod` length store) j now = update_frame store i (S j) now.
Proof.
  unfold update_frame.
  replace (((i + 1) `mod` length store + S j) `mod` length store)%nat
    with ((i + S (S j)) `mod` length store)%nat; [done|].
  rewrite Nat.Div0.add_mod_idemp_l. f_equal. lia.
Qed.

Lemma ticks_frames (nows : list string) (s : server) (c : client) (r : response) :
  sensorData s ≠ [] →
  NoDup (res <$> realtimeConnections s) →
  Forall (accepts s) (realtimeConnections s) →
  c ∈ realtimeConnections s →
  responses s !! res c = Some r →
  let s' := run_events (Tick <$> nows) s in
  realtimeConnections s' = realtimeConnections s
  ∧ Forall (accepts s') (realtimeConnections s')
  ∧ ∃ r', responses s' !! res c = Some r'
          ∧ writable r' = writable r
          ∧ written r'
            = written r ++ imap (update_frame (sensorData s) (currentDataIndex s)) nows.
Proof.
  revert s r. induction nows as [|now nows IH]; intros s r Hne Hnd Hall Hc Hr s'.
  - subst s'. simpl. split; [done|]. split; [done|].
    exists r. by rewrite app_nil_r.
  - subst s'. unfold run_events. simpl. fold (run_events (Tick <$> nows)).
    rewrite (tick_accepted now s Hne Hall). simpl.
    set (fr := update_frame (sensorData s) (currentDataIndex s) 0 now).
    set (s1 := set_responses (delivered fr (realtimeConnections s) (responses s)) (advance s)).
    assert (Hall1 : Forall (accepts s1) (realtimeConnections s1)).
    { eapply Forall_impl; [exact Hall|]. intros c' Hc'.
      by apply (accepts_after fr (realtimeConnections s) (advance s) c'). }
    assert (Hr1 : responses s1 !! res c = Some (append_frame fr r)).
    { simpl. rewrite delivered_lookup_in, Hr by done. simpl. unfold receive.
      rewrite Forall_forall in Hall. destruct (Hall c Hc) as (r0 & Hr0 & Hw0).
      rewrite Hr in Hr0. injection Hr0 as <-. by rewrite Hw0. }
    destruct (IH s1 (append_frame fr r) Hne Hnd Hall1 Hc Hr1) as (Hreg & Hacc & r' & Hr' & Hw & Hfr).
    split; [exact Hreg|]. split; [exact Hacc|].
    exists r'. split; [exact Hr'|]. split; [exact Hw|].
    rewrite Hfr. simpl. rewrite <- app_assoc. simpl. do 2 f_equal.
    apply imap_ext. intros j now' _. simpl. apply update_frame_shift.
Qed.

(** X3.  While every registered client accepts its writes, [k] ticks on a
    non-empty store bring every registered client exactly [k] new frames, in
    the order of the ticks: the [j]-th is the [realtime_update] of the record
    at [(i + j) mod n] (from the cursor [i] before the ticks), with that
    index, the time of the tick and the number of records. *)
Theorem ticks_stream (nows : list string) (s : server) (c : client) (r : response) :
  sensorData s ≠ [] →
  NoDup (res <$> realtimeConnections s) →
  Forall (accepts s) (realtimeConnections s) →
  c ∈ realtimeConnections s →
  responses s !! res c = Some r →
  let n := length (sensorData s) in
  let i := currentDataIndex s in
  let s' := run_events (Tick <$> nows) s in
  ∃ r', responses s' !! res c = Some r'
        ∧ written r'
          = written r
            ++ imap (λ j now,
                 {| type := "realtime_update";
                    data := {| fields := sensorData s !! ((i + S j) `mod` n)%nat;
                               realtime_timestamp := now;
                               current_index := ((i + S j) `mod` n)%nat;
                               total_records := n |} |}) nows
        ∧ (∀ j now, nows !! j = Some now →
                    is_Some (sensorData s !! ((i + S j) `mod` n)%nat)).
Proof.
  intros Hne Hnd Hall Hc Hr n i s'.
  destruct (ticks_frames nows s c r Hne Hnd Hall Hc Hr) as (_ & _ & r' & Hr' & _ & Hfr).
  exists r'. split; [exact Hr'|]. split; [exact Hfr|].
  intros j now _. apply lookup_lt_is_Some_2, Nat.mod_upper_bound.
  subst n. by destruct (sensorData s).
Qed.

(** The three connected clients, through two ticks. *)
Lemma ticks_stream_witness :
  ∃ r', responses
          (run_events (Tick <$> ["2024-01-01T00:00:04.000Z"; "2024-01-01T00:00:06.000Z"])
             connected) !! 2%nat = Some r'
        ∧ length (written r') = 3%nat.
Proof.
  destruct (ticks_stream ["2024-01-01T00:00:04.000Z"; "2024-01-01T00:00:06.000Z"]
              connected {| client_id := 1704067203000; res := 2 |}
              {| writable := true; written := initial_frames "2024-01-01T00:00:03.000Z" loaded |})
    as (r' & Hr' & Hfr & _).
  - done.
  - apply (bool_decide_unpack _). vm_compute. reflexivity.
  - repeat constructor; eexists; split; vm_compute; reflexivity.
  - vm_compute. do 2 right. left.
  - vm_compute. reflexivity.
  - exists r'. split; [exact Hr'|]. rewrite Hfr. reflexivity.
Defined.

(** ** Disconnecting *)

Lemma filter_idemp {A} (P : A → Prop) `{∀ x, Decision (P x)} (l : list A) :
  filter P (filter P l) = filter P l.
Proof.
  induction l as [|x l IH]; [done|].
  rewrite filter_cons. destruct (decide (P x)) as [HP|HP]; [|done].
  rewrite filter_cons. destruct (decide (P x)); [|done]. by rewrite IH.
Qed.

Lemma filter_all {A} (P : A → Prop) `{∀ x, Decision (P x)} (l : list A) :
  Forall P l → filter P l = l.
Proof.
  induction 1 as [|x l HP _ IH]; [done|].
  rewrite filter_cons. destruct (decide (P x)); [|done]. by rewrite IH.
Qed.

Lemma filter_others_length (c : client) (l : list client) :
  NoDup (res <$> l) → c ∈ l →
  S (length (filter (λ c', res c' ≠ res c) l)) = length l.
Proof.
  induction l as [|c0 l IH]; intros Hnd Hin; [by apply elem_of_nil in Hin|].
  simpl in Hnd. apply NoDup_cons in Hnd as [Hfresh Hnd].
  rewrite filter_cons. apply elem_of_cons in Hin as [->|Hin].
  - destruct (decide (res c0 ≠ res c0)) as [Hne|_]; [done|]. simpl. f_equal.
    f_equal. apply filter_all, Forall_forall. intros c' Hc' Heq.
    apply Hfresh. rewrite <- Heq. by apply list_elem_of_fmap_2.
  - destruct (decide (res c0 ≠ res c)) as [Hne|Heq].
    + simpl. f_equal. by apply IH.
    + exfalso. apply Hfresh. apply dec_stable in Heq. rewrite Heq.
      by apply list_elem_of_fmap_2.
Qed.

(** X4.  The handler of a client's [close] event removes that client and no
    other, keeps the order of the rest, and running it again changes
    nothing.  From then on a tick no longer writes to that client: whatever
    the state of its stream, the tick returns when the remaining clients
    accept, it leaves the response of the removed client as it was, and each
    remaining client receives the frame of the tick. *)
Theorem disconnect_removes_one (c : client) (now : string) (s : server) :
  NoDup (res <$> realtimeConnections s) →
  c ∈ realtimeConnections s →
  Forall (accepts s) (filter (λ c', res c' ≠ res c) (realtimeConnections s)) →
  let s1 := onClose c s in
  let s2 := (tick now s1).2 in
  (c ∉ realtimeConnections s1)
  ∧ S (length (realtimeConnections s1)) = length (realtimeConnections s)
  ∧ realtimeConnections s1 `sublist_of` realtimeConnections s
  ∧ (∀ c', c' ∈ realtimeConnections s → res c' ≠ res c → c' ∈ realtimeConnections s1)
  ∧ onClose c s1 = s1
  ∧ (tick now s1).1 = Returned tt
  ∧ responses s2 !! res c = responses s !! res c
  ∧ (sensorData s ≠ [] →
     ∀ c', c' ∈ realtimeConnections s1 →
           responses s2 !! res c'
           = append_frame (update_frame (sensorData s) (currentDataIndex s) 0 now)
             <$> responses s !! res c').
Proof.
  intros Hnd Hin Hall s1 s2.
  assert (Hreg : realtimeConnections s1
                 = filter (λ c', res c' ≠ res c) (realtimeConnections s)) by done.
  assert (Hnd1 : NoDup (res <$> realtimeConnections s1)).
  { rewrite Hreg. apply (sublist_NoDup _ (res <$> realtimeConnections s)); [done|].
    apply fmap_sublist, sublist_filter. }
  assert (Hnotin : res c ∉ res <$> realtimeConnections s1).
  { rewrite Hreg. intros Hc. apply list_elem_of_fmap in Hc as (c' & Heq & Hc').
    apply list_elem_of_filter in Hc' as [Hne _]. by apply Hne. }
  split; [intros Hc; apply Hnotin; by apply list_elem_of_fmap_2|].
  split; [rewrite Hreg; by apply filter_others_length|].
  split; [rewrite Hreg; apply sublist_filter|].
  split; [intros c' Hc' Hne; rewrite Hreg; by apply list_elem_of_filter|].
  split.
  { unfold s1, onClose. simpl. rewrite filter_idemp. reflexivity. }
  destruct (decide (sensorData s = [])) as [Hempty|Hne].
  - assert (Htick : tick now s1 = (Returned tt, s1)).
    { unfold tick, mbind, M_bind, get. simpl. by rewrite Hempty. }
    subst s2. rewrite Htick. simpl. split; [done|]. split; [done|]. done.
  - assert (Htick : (tick now s1) = (Returned tt,
        set_responses
          (delivered (update_frame (sensorData s) (currentDataIndex s) 0 now)
             (realtimeConnections s1) (responses s))
          (advance s1))).
    { apply (tick_accepted now s1); [done|]. rewrite Hreg. exact Hall. }
    subst s2. rewrite Htick. simpl. split; [done|].
    split; [by apply delivered_lookup_notin|].
    intros _ c' Hc'. apply (delivered_lookup_accepts _ _ s); [done|done|].
    rewrite Forall_forall in Hall. apply Hall. by rewrite <- Hreg.
Qed.

(** The second of three clients, whose stream is closed, disconnects. *)
Lemma disconnect_removes_one_witness :
  (tick "2024-01-01T00:00:04.000Z"
     (onClose {| client_id := 1704067202000; res := 1 |} second_closed)).1 = Returned tt
  ∧ length (realtimeConnections
              (onClose {| client_id := 1704067202000; res := 1 |} second_closed)) = 2%nat.
Proof.
  destruct (disconnect_removes_one {| client_id := 1704067202000; res := 1 |}
              "2024-01-01T00:00:04.000Z" second_closed)
    as (_ & Hlen & _ & _ & _ & Htick & _).
  - apply (bool_decide_unpack _). vm_compute. reflexivity.
  - vm_compute. right. left.
  - vm_compute. repeat constructor; eexists; split; vm_compute; reflexivity.
  - split; [exact Htick|]. vm_compute. reflexivity.
Defined.

(** ** Pull and push agree *)

(** X5.  After a tick on a non-empty store, the current-data endpoint, asked
    at the time of the tick, answers exactly the envelope the tick handed to
    the broadcast, whatever became of the writes of that broadcast. *)
Theorem currentData_after_tick (now : string) (s : server) :
  sensorData s ≠ [] →
  let sent := data (update_frame (sensorData s) (currentDataIndex s) 0 now) in
  tick now s = broadcastRealtimeData sent (advance s)
  ∧ currentData now (tick now s).2 = {| status := 200; json := Current sent |}
  ∧ is_Some (fields sent).
Proof.
  intros Hne sent. split; [exact (tick_nonempty now s Hne)|].
  destruct (tick_state now s) as (rs & Hrs & _). rewrite Hrs.
  destruct (decide (sensorData s = [])) as [Hempty|_]; [done|].
  split.
  - unfold currentData. simpl.
    destruct (decide (length (sensorData s) = 0%nat)) as [Hz|_]; [|done].
    by apply length_zero_iff_nil in Hz.
  - apply lookup_lt_is_Some_2, Nat.mod_upper_bound. by destruct (sensorData s).
Qed.

(** On the loaded server, whose cursor is on the last of three records. *)
Lemma currentData_after_tick_witness :
  ∃ e, currentData "2024-01-01T00:00:04.000Z" (tick "2024-01-01T00:00:04.000Z" loaded).2
       = {| status := 200; json := Current e |}
       ∧ current_index e = 0%nat.
Proof.
  destruct (currentData_after_tick "2024-01-01T00:00:04.000Z" loaded) as (_ & H & _); [done|].
  eexists. split; [exact H|reflexivity].
Defined.

(** ** Recent data, for every integer parameter *)

Lemma parseInt_truthy (v : JS.number) (L : Z) :
  L ≠ 0 → JS.ToIntegerOrInfinity v = JS.Fin L → JS.truthy v = true.
Proof.
  intros HL Hint. rewrite truthy_spec. unfold JS.ToIntegerOrInfinity in Hint.
  destruct (Prim2SF v) as [[]|[]| |[] m e]; try done; injection Hint as <-; done.
Qed.

Lemma recentData_integer (s : server) (param : string) (L : Z) :
  L ≠ 0 →
  JS.ToIntegerOrInfinity (JS.parseInt (Some param)) = JS.Fin L →
  recentData param s
  = {| status := 200;
       json := Records
                 (drop (Z.to_nat (if 0 <? L
                                  then Z.max (Z.of_nat (length (sensorData s)) - L) 0
                                  else Z.min (- L) (Z.of_nat (length (sensorData s)))))
                    (sensorData s)) |}.
Proof.
  intros HL Hint. unfold recentData, JS.or, slice.
  rewrite (parseInt_truthy _ L HL Hint), ToIntegerOrInfinity_opp, Hint.
  destruct (Z.ltb_spec 0 L), (Z.ltb_spec (- L) 0); try lia; reflexivity.
Qed.

(** X6.  On a non-empty store, a limit that reads as an integer at least the
    number of records makes the recent-data endpoint answer what the
    all-data endpoint answers: status 200 and the whole store, in order. *)
Theorem recentData_covers_allData (s : server) (param : string) (L : Z) :
  sensorData s ≠ [] →
  JS.ToIntegerOrInfinity (JS.parseInt (Some param)) = JS.Fin L →
  Z.of_nat (length (sensorData s)) ≤ L →
  recentData param s = allData s
  ∧ allData s = {| status := 200; json := Records (sensorData s) |}.
Proof.
  intros Hne Hint Hlen.
  assert (Hall : allData s = {| status := 200; json := Records (sensorData s) |}).
  { unfold allData. destruct (decide (length (sensorData s) = 0%nat)) as [Hz|_]; [|done].
    by apply length_zero_iff_nil in Hz. }
  split; [|exact Hall]. rewrite Hall.
  assert (HL : L ≠ 0) by (destruct (sensorData s); [done|simpl in Hlen; lia]).
  rewrite (recentData_integer s param L HL Hint).
  destruct (Z.ltb_spec 0 L); [|lia].
  replace (Z.to_nat _) with 0%nat by lia. reflexivity.
Qed.

(** The loaded server (three records), limit 50. *)
Lemma recentData_covers_allData_witness : recentData "50" loaded = allData loaded.
Proof.
  destruct (recentData_covers_allData loaded "50" 50) as [H _].
  - done.
  - vm_compute. reflexivity.
  - vm_compute. discriminate.
  - exact H.
Defined.

(** X7.  A limit that reads as a negative integer [-m] does not count from
    the end: the endpoint answers the records after the first [m] (none when
    the store has no more than [m]).  A limit that reads as zero is replaced
    by the default, and the answer is the last 50 records. *)
Theorem recentData_nonpositive_limit (s : server) (param : string) :
  (∀ m, 0 < m →
        JS.ToIntegerOrInfinity (JS.parseInt (Some param)) = JS.Fin (- m) →
        recentData param s
        = {| status := 200; json := Records (drop (Z.to_nat m) (sensorData s)) |})
  ∧ ((JS.parseInt (Some param) =? 0)%float = true →
     recentData param s
     = {| status := 200; json := Records (last_n 50 (sensorData s)) |}).
Proof.
  split.
  - intros m Hm Hint. rewrite (recentData_integer s param (- m) ltac:(lia) Hint).
    destruct (Z.ltb_spec 0 (- m)); [lia|]. do 2 f_equal.
    rewrite Z.opp_involutive.
    destruct (Z.min_spec m (Z.of_nat (length (sensorData s)))) as [[_ ->]|[Hle ->]]; [done|].
    rewrite Nat2Z.id, drop_all. symmetry. apply drop_ge. lia.
  - intros Hzero. unfold recentData, JS.or, slice, last_n.
    assert (Hfalsy : JS.truthy (JS.parseInt (Some param)) = false)
      by (unfold JS.truthy; rewrite Hzero; apply andb_false_r).
    rewrite Hfalsy.
    assert (H50 : JS.ToIntegerOrInfinity (PrimFloat.opp 50) = JS.Fin (-50))
      by (vm_compute; reflexivity).
    rewrite H50. change (-50 <? 0) with true. cbv iota. do 3 f_equal. lia.
Qed.

(** The loaded server, with the parameters ["-1"] and ["0"]. *)
Lemma recentData_nonpositive_limit_witness :
  recentData "-1" loaded = {| status := 200; json := Records (drop 1 three_records) |}
  ∧ recentData "0" loaded = {| status := 200; json := Records three_records |}.
Proof.
  destruct (recentData_nonpositive_limit loaded "-1") as [Hneg _].
  destruct (recentData_nonpositive_limit loaded "0") as [_ Hzero].
  split.
  - apply (Hneg 1); [lia|vm_compute; reflexivity].
  - apply Hzero. vm_compute. reflexivity.
Defined.

(** ** What has been written stays written *)

Lemma forEach_write_appends (fr : frame) (cs : list client) (s : server)
    (h : nat) (r : response) :
  responses s !! h = Some r →
  ∃ r', responses (forEach (λ client, write (res client) fr) cs s).2 !! h = Some r'
        ∧ written r `prefix_of` written r'
        ∧ (writable r = false → writable r' = false ∧ written r' = written r).
Proof.
  revert s r. induction cs as [|c cs IH]; intros s r Hr.
  - exists r. by destruct s.
  - simpl. unfold mbind, M_bind, write at 1.
    destruct (responses s !! res c) as [rc|] eqn:Hrc; [destruct (writable rc) eqn:Hw|].
    + destruct (decide (h = res c)) as [->|Hne].
      * rewrite Hrc in Hr. injection Hr as ->.
        match goal with
        | |- context [set_responses ?rs s] =>
            destruct (IH (set_responses rs s)
                        {| writable := true; written := written r ++ [fr] |}) as (r' & Hr' & Hpre & _)
        end.
        { simpl. by rewrite lookup_insert_eq. }
        exists r'. split; [exact Hr'|]. split.
        -- etransitivity; [|exact Hpre]. simpl. by apply prefix_app_r.
        -- intros Hclosed. congruence.
      * match goal with
        | |- context [set_responses ?rs s] =>
            destruct (IH (set_responses rs s) r) as (r' & Hr' & Hpre & Hclosed)
        end.
        { simpl. by rewrite lookup_insert_ne. }
        by exists r'.
    + by apply IH.
    + by apply IH.
Qed.

Lemma step_appends (s : server) (e : event) (h : nat) (r : response) :
  responses s !! h = Some r →
  ∃ r', responses (step s e) !! h = Some r'
        ∧ written r `prefix_of` written r'
        ∧ (writable r = false → writable r' = false ∧ written r' = written r).
Proof.
  intros Hr. destruct e as [now|t now|c|h0|ev| |]; simpl; [| | | |by exists r..].
  - destruct (decide (sensorData s = [])) as [Hempty|Hne].
    + exists r. unfold tick, mbind, M_bind, get. simpl. by rewrite Hempty.
    + rewrite (tick_nonempty now s Hne), broadcastRealtimeData_unfold.
      by apply forEach_write_appends.
  - rewrite subscribe_eq. simpl. exists r. split; [|done].
    rewrite lookup_insert_ne; [done|]. intros <-.
    apply (is_fresh (dom (responses s))), elem_of_dom. by eexists.
  - by exists r.
  - destruct (decide (h0 = h)) as [->|Hne].
    + eexists. rewrite lookup_alter_eq, Hr. simpl. done.
    + exists r. by rewrite lookup_alter_ne.
Qed.

(** X8.  Through any sequence of events (ticks, connections,
    disconnections, lost connections, rows and the end of the file), a
    response keeps every frame written to it, in order, and only gains frames
    at its end; once its stream is closed it stays closed and gains none. *)
Theorem frames_never_lost (es : list event) (s : server) (h : nat) (r : response) :
  responses s !! h = Some r →
  ∃ r', responses (run_events es s) !! h = Some r'
        ∧ written r `prefix_of` written r'
        ∧ (writable r = false → writable r' = false ∧ written r' = written r).
Proof.
  revert s r. induction es as [|e es IH]; intros s r Hr.
  - by exists r.
  - destruct (step_appends s e h r Hr) as (r1 & Hr1 & Hpre1 & Hclosed1).
    destruct (IH (step s e) r1 Hr1) as (r' & Hr' & Hpre & Hclosed).
    exists r'. split; [exact Hr'|]. split; [by etransitivity|].
    intros Hw. destruct (Hclosed1 Hw) as [Hw1 Heq1].
    destruct (Hclosed Hw1) as [Hw' Heq']. split; [done|congruence].
Qed.

(** The closed stream of the second client, through a tick, a disconnection
    and a new connection. *)
Lemma frames_never_lost_witness :
  ∃ r', responses
          (run_events [Tick "2024-01-01T00:00:04.000Z";
                       Disconnect {| client_id := 1704067202000; res := 1 |};
                       Connect 1704067205000 "2024-01-01T00:00:05.000Z"]
             second_closed) !! 1%nat = Some r'
        ∧ writable r' = false.
Proof.
  destruct (frames_never_lost
              [Tick "2024-01-01T00:00:04.000Z";
               Disconnect {| client_id := 1704067202000; res := 1 |};
               Connect 1704067205000 "2024-01-01T00:00:05.000Z"]
              second_closed 1
              {| writable := false;
                 written := initial_frames "2024-01-01T00:00:02.000Z" loaded |})
    as (r' & Hr' & _ & Hclosed).
  - vm_compute. reflexivity.
  - exists r'. split; [exact Hr'|]. by apply Hclosed.
Defined.

(** ** The motion figures *)

Lemma scan_le_detections (l : list JS.number) :
  ((scan l).2 ≤ length (filter (λ val, (0 <? val)%float = true) l)
   ∧ (scan l).1 ≤ length (filter (λ val, (0 <? val)%float = true) l))%nat.
Proof.
  induction l as [|x l IH] using rev_ind; [simpl; lia|].
  rewrite scan_snoc, filter_app, length_app, filter_cons, filter_nil.
  destruct (scan l) as [m c]. simpl in *.
  destruct (decide ((0 <? x)%float = true)) as [Hx|Hx].
  - rewrite Hx. simpl. lia.
  - apply not_true_is_false in Hx. rewrite Hx. simpl. lia.
Qed.

Lemma detection_is_run (l : list JS.number) :
  (0 < length (filter (λ val, (0 <? val)%float = true) l))%nat → ∃ i, run l i 1.
Proof.
  intros Hpos. destruct (filter _ l) as [|x t] eqn:Hf; [simpl in Hpos; lia|].
  assert (Hx : x ∈ filter (λ val, (0 <? val)%float = true) l) by (rewrite Hf; left).
  apply list_elem_of_filter in Hx as [Hact Hin].
  apply list_elem_of_lookup in Hin as [i Hi].
  exists i. intros j Hj. assert (j = i) as -> by lia. by exists x.
Qed.

(** X9.  In the statistics of a non-empty store the longest activation is
    at most the number of detections, which is at most the number of
    records; the longest activation is zero exactly when there is no
    detection, and equals the number of records exactly when every record
    has [motion > 0]. *)
Theorem motion_figures (s : server) :
  sensorData s ≠ [] →
  ∃ st, statistics s = {| status := 200; json := Statistics st |}
    ∧ (Motion.longest_activation (stats_motion st)
       ≤ Motion.total_detections (stats_motion st) ≤ stats_total_records st)%nat
    ∧ stats_total_records st = length (sensorData s)
    ∧ (Motion.longest_activation (stats_motion st) = 0%nat
       ↔ Motion.total_detections (stats_motion st) = 0%nat)
    ∧ (Motion.longest_activation (stats_motion st) = stats_total_records st
       ↔ Forall (λ r, active (motion r) = true) (sensorData s)).
Proof.
  intros Hne. exists (computeStats (sensorData s)). split.
  { unfold statistics.
    destruct (decide (length (sensorData s) = 0%nat)) as [Hz|_]; [|done].
    by apply length_zero_iff_nil in Hz. }
  unfold computeStats.
  cbn [stats_motion stats_total_records Motion.longest_activation Motion.total_detections].
  change (map motion (sensorData s)) with (motion <$> sensorData s).
  set (motions := motion <$> sensorData s).
  set (detections := length (filter (λ val, (0 <? val)%float = true) motions)).
  assert (Hlen : length motions = length (sensorData s)) by apply length_fmap.
  pose proof (scan_le_detections motions) as [_ Hle].
  rewrite <- findLongestActivation_scan in Hle. fold detections in Hle.
  assert (Hdet : (detections ≤ length (sensorData s))%nat).
  { rewrite <- Hlen. apply length_filter. }
  destruct (scan_invariant motions) as [_ _ _ _ Hrun Hmax].
  rewrite <- findLongestActivation_scan in Hrun, Hmax.
  split; [lia|]. split; [done|]. split; split.
  - intros Hzero. destruct (decide (detections = 0%nat)) as [|Hpos]; [done|].
    destruct (detection_is_run motions ltac:(fold detections; lia)) as [i Hi].
    specialize (Hmax i 1%nat Hi). lia.
  - intros Hzero. lia.
  - intros Hfull. destruct Hrun as (i & Hi & Hrun). rewrite Hfull, <- Hlen in Hi, Hrun.
    assert (i = 0%nat) as -> by lia.
    apply Forall_forall. intros r Hr.
    apply list_elem_of_lookup in Hr as [j Hj].
    destruct (Hrun j) as (x & Hx & Hact).
    { apply lookup_lt_Some in Hj. lia. }
    subst motions. rewrite list_lookup_fmap, Hj in Hx. simpl in Hx. by injection Hx as <-.
  - intros Hall. apply Nat.le_antisymm; [lia|]. rewrite <- Hlen.
    apply (Hmax 0%nat). intros j Hj. subst motions.
    destruct (lookup_lt_is_Some_2 (sensorData s) j) as [r Hr]; [rewrite length_fmap in Hj; lia|].
    exists (motion r). split; [by rewrite list_lookup_fmap, Hr|].
    rewrite Forall_forall in Hall. apply Hall. by apply list_elem_of_lookup_2 in Hr.
Qed.

(** The loaded server, whose three records all have motion 1. *)
Lemma motion_figures_witness :
  ∃ st, statistics loaded = {| status := 200; json := Statistics st |}
        ∧ Motion.longest_activation (stats_motion st) = 3%nat.
Proof.
  destruct (motion_figures loaded) as (st & Hst & _ & Htotal & _ & Hfull); [done|].
  exists st. split; [exact Hst|]. rewrite Htotal in Hfull. apply Hfull.
  repeat constructor.
Defined.

(** ** The records the loader stores *)

Lemma or_str_nonempty (a : option string) (b : string) : b ≠ "" → JS.or_str a b ≠ "".
Proof.
  intros Hb. unfold JS.or_str. destruct a as [s|]; [|done].
  destruct (String.eqb_spec s ""); done.
Qed.

Lemma processRow_well_formed (ev : row_event) : clock ev ≠ "" → well_formed (processRow ev).
Proof.
  intros Hclock. unfold well_formed. simpl.
  rewrite !or_not_NaN by done. repeat split.
  by repeat apply or_str_nonempty.
Qed.

Lemma foldl_onData (rows : list row_event) (acc : list SensorRecord) :
  foldl onData acc rows = acc ++ (processRow <$> rows).
Proof.
  revert acc. induction rows as [|ev rows IH]; intros acc; simpl.
  - by rewrite app_nil_r.
  - rewrite IH. unfold onData, keeps. simpl. rewrite !or_not_NaN by done. simpl.
    by rewrite <- app_assoc.
Qed.

(** X10.  After the start, whether the file was read to its end, broke off
    or was missing, the store holds one record per row delivered, in the
    order of the rows, each with the identifier drawn for its row; no number
    in it is [NaN], and no timestamp is empty (the clock never prints as the
    empty text). *)
Theorem startup_store (file : csv_file) :
  Forall (λ ev, clock ev ≠ "") (rows_of file) →
  sensorData (startup file) = processRow <$> rows_of file
  ∧ length (sensorData (startup file)) = length (rows_of file)
  ∧ id <$> sensorData (startup file) = random_id <$> rows_of file
  ∧ Forall well_formed (sensorData (startup file)).
Proof.
  intros Hclock.
  assert (Hstore : sensorData (startup file) = processRow <$> rows_of file).
  { destruct file as [|rows|rows]; simpl; [done| |]; by rewrite foldl_onData. }
  rewrite Hstore. split; [done|]. split; [by rewrite length_fmap|].
  split; [by rewrite <- list_fmap_compose|].
  apply Forall_fmap. eapply Forall_impl; [exact Hclock|].
  intros ev Hev. by apply processRow_well_formed.
Qed.

(** The file of three rows of temperature 0.1. *)
Lemma startup_store_witness : length (sensorData three_tenths) = 3%nat.
Proof.
  destruct (startup_store
              (File (replicate 3 {| cells := <["temperature" := "0.1"]> (<["humidity" := "45"]> ∅);
                                    clock := "2024-01-01T00:00:00.000Z";
                                    random_id := "k3j9x0q1z" |})))
    as (_ & Hlen & _).
  - repeat constructor; done.
  - exact Hlen.
Defined.

(** ** The correlation of two series, either way round *)

Local Open Scope float_scope.

Lemma mul_comm (a b : JS.number) : a * b = b * a.
Proof.
  apply Prim2SF_inj. rewrite !FloatAxioms.mul_spec.
  destruct (Prim2SF a) as [sa|sa| |sa ma ea], (Prim2SF b) as [sb|sb| |sb mb eb];
    simpl; try reflexivity; try (by rewrite (xorb_comm sa sb)).
  unfold SF64mul, SFmul.
  by rewrite (Pos.mul_comm ma mb), (Z.add_comm ea eb), (xorb_comm sa sb).
Qed.

Lemma zip_with_mul_comm (x y : list JS.number) :
  zip_with (λ a b, a * b) x y = zip_with (λ a b, a * b) y x.
Proof.
  revert y. induction x as [|a x IH]; intros [|b y]; simpl; try done.
  by rewrite mul_comm, IH.
Qed.

(** X11.  For two series of the same length, [calculateCorrelation] gives
    the same result whichever of the two comes first. *)
Theorem calculateCorrelation_symmetric (x y : list JS.number) :
  length x = length y → calculateCorrelation x y = calculateCorrelation y x.
Proof.
  intros Hlen. rewrite !calculateCorrelation_pearson by done.
  assert (Hnum : pearson_numerator x y = pearson_numerator y x).
  { unfold pearson_numerator. by rewrite Hlen, zip_with_mul_comm, (mul_comm (sum x)). }
  assert (Hden : pearson_denominator x y = pearson_denominator y x).
  { unfold pearson_denominator. by rewrite Hlen, mul_comm. }
  by rewrite Hnum, Hden.
Qed.

(** Temperatures against humidities, and back. *)
Lemma calculateCorrelation_symmetric_witness :
  calculateCorrelation [21.5; 22.1; 22.9] [45; 43.5; 41.2]
  = calculateCorrelation [45; 43.5; 41.2] [21.5; 22.1; 22.9].
Proof. apply calculateCorrelation_symmetric. reflexivity. Defined.

(** ** A second series that is too short *)

Lemma add_nan_l (x : JS.number) : nan + x = nan.
Proof. apply Prim2SF_inj. by rewrite FloatAxioms.add_spec. Qed.

Lemma add_nan_r (x : JS.number) : x + nan = nan.
Proof.
  apply Prim2SF_inj. rewrite FloatAxioms.add_spec.
  change (Prim2SF nan) with S754_nan. by destruct (Prim2SF x) as [[]|[]| |[] m e].
Qed.

Lemma mul_nan_r (x : JS.number) : x * nan = nan.
Proof.
  apply Prim2SF_inj. rewrite FloatAxioms.mul_spec.
  change (Prim2SF nan) with S754_nan. by destruct (Prim2SF x) as [[]|[]| |[] m e].
Qed.

Lemma sub_nan_l (x : JS.number) : nan - x = nan.
Proof. apply Prim2SF_inj. by rewrite FloatAxioms.sub_spec. Qed.

Lemma div_nan_l (x : JS.number) : nan / x = nan.
Proof. apply Prim2SF_inj. by rewrite FloatAxioms.div_spec. Qed.

Lemma reduce_i_nan (x y : list JS.number) (i0 : nat) :
  reduce_i (λ sum val i, sum + val * at_index y i) nan x i0 = nan.
Proof.
  revert i0. induction x as [|v x IH]; intros i0; simpl; [done|].
  by rewrite add_nan_l.
Qed.

Lemma reduce_i_short (x y : list JS.number) (acc : JS.number) (i0 : nat) :
  x ≠ [] → (length y < i0 + length x)%nat →
  reduce_i (λ sum val i, sum + val * at_index y i) acc x i0 = nan.
Proof.
  revert acc i0. induction x as [|v x IH]; intros acc i0 Hne Hlen; [done|].
  cbn [reduce_i]. simpl in Hlen.
  destruct (decide (length y ≤ i0)%nat) as [Hout|Hin].
  - assert (Hat : at_index y i0 = nan).
    { unfold at_index. by rewrite lookup_ge_None_2. }
    by rewrite Hat, mul_nan_r, add_nan_r, reduce_i_nan.
  - apply IH; [|lia]. destruct x; [simpl in Hlen; lia|done].
Qed.

(** X12.  When the second series is shorter than the first, the products
    run past its end and the result carries no coefficient: it is the text
    ["NaN"], or the number 0 when the computed denominator is zero. *)
Theorem calculateCorrelation_short_second (x y : list JS.number) :
  (length y < length x)%nat →
  calculateCorrelation x y
  = (if pearson_denominator x y =? 0 then Num 0 else Str "NaN")
  ∧ (calculateCorrelation x y = Num 0 ∨ calculateCorrelation x y = Str "NaN").
Proof.
  intros Hlen.
  assert (Heq : calculateCorrelation x y
                = if pearson_denominator x y =? 0 then Num 0 else Str "NaN").
  { rewrite calculateCorrelation_denominator.
    rewrite reduce_i_short; [|by destruct x; [simpl in Hlen; lia|]|lia].
    by rewrite mul_nan_r, sub_nan_l, div_nan_l. }
  split; [exact Heq|]. rewrite Heq.
  destruct (pearson_denominator x y =? 0); [by left|by right].
Qed.

(** Three temperatures against two humidities. *)
Lemma calculateCorrelation_short_second_witness :
  calculateCorrelation [21.5; 22.1; 22.9] [45; 43.5] = Str "NaN".
Proof.
  destruct (calculateCorrelation_short_second [21.5; 22.1; 22.9] [45; 43.5]) as [H _].
  - simpl. lia.
  - rewrite H. vm_compute. reflexivity.
Defined.

(** ** Minimum and maximum *)

Lemma ltb_infinity_l (x : JS.number) : (infinity <? x) = false.
Proof.
  rewrite FloatAxioms.ltb_spec. change (Prim2SF infinity) with (S754_infinity false).
  by destruct (Prim2SF x) as [[]|[]| |[] m e].
Qed.

Lemma ltb_neg_infinity_r (x : JS.number) : (x <? neg_infinity) = false.
Proof.
  rewrite FloatAxioms.ltb_spec. change (Prim2SF neg_infinity) with (S754_infinity true).
  by destruct (Prim2SF x) as [[]|[]| |[] m e].
Qed.

Lemma min2_choice (a b : JS.number) :
  JS.isNaN a = false → JS.isNaN b = false → JS.min2 a b = a ∨ JS.min2 a b = b.
Proof.
  intros Ha Hb. unfold JS.min2. rewrite Ha, Hb. simpl.
  destruct (a <? b); [by left|]. destruct (b <? a); [by right|].
  destruct (JS.is_neg_zero a); [by left|by right].
Qed.

Lemma max2_choice (a b : JS.number) :
  JS.isNaN a = false → JS.isNaN b = false → JS.max2 a b = a ∨ JS.max2 a b = b.
Proof.
  intros Ha Hb. unfold JS.max2. rewrite Ha, Hb. simpl.
  destruct (a <? b); [by right|]. destruct (b <? a); [by left|].
  destruct (JS.is_neg_zero a); [by right|by left].
Qed.

Lemma min2_infinity (x : JS.number) : JS.isNaN x = false → JS.min2 infinity x = x.
Proof.
  intros Hx. unfold JS.min2. rewrite Hx, ltb_infinity_l.
  change (JS.isNaN infinity) with false. change (JS.is_neg_zero infinity) with false.
  simpl. by destruct (x <? infinity).
Qed.

Lemma not_above_neg_infinity (x : JS.number) :
  JS.isNaN x = false → (neg_infinity <? x) = false → x = neg_infinity.
Proof.
  rewrite isNaN_spec, FloatAxioms.ltb_spec. intros Hx Hlt. apply Prim2SF_inj.
  change (Prim2SF neg_infinity) with (S754_infinity true) in *.
  by destruct (Prim2SF x) as [[]|[]| |[] m e].
Qed.

Lemma max2_neg_infinity (x : JS.number) : JS.isNaN x = false → JS.max2 neg_infinity x = x.
Proof.
  intros Hx. unfold JS.max2. rewrite Hx, ltb_neg_infinity_r.
  change (JS.isNaN neg_infinity) with false. change (JS.is_neg_zero neg_infinity) with false.
  simpl. destruct (neg_infinity <? x) eqn:Hlt; [done|].
  symmetry. by apply not_above_neg_infinity.
Qed.

Lemma foldl_choice (f : JS.number → JS.number → JS.number) (a : JS.number)
    (xs : list JS.number) :
  (∀ a b, JS.isNaN a = false → JS.isNaN b = false → f a b = a ∨ f a b = b) →
  Forall (λ x, JS.isNaN x = false) (a :: xs) →
  foldl f a xs ∈ a :: xs.
Proof.
  intros Hf. revert a. induction xs as [|x xs IH]; intros a Hall; simpl; [left|].
  apply Forall_cons in Hall as [Ha Hall]. pose proof Hall as Hall'.
  apply Forall_cons in Hall' as [Hx Hxs].
  destruct (Hf a x Ha Hx) as [->| ->].
  - specialize (IH a ltac:(by constructor)).
    apply elem_of_cons in IH as [->|IH]; [left|]. by do 2 right.
  - right. by apply IH.
Qed.

Lemma min_max_in (xs : list JS.number) :
  xs ≠ [] → Forall (λ x, JS.isNaN x = false) xs → JS.min xs ∈ xs ∧ JS.max xs ∈ xs.
Proof.
  intros Hne Hall. destruct xs as [|x xs]; [done|].
  pose proof Hall as Hall'. apply Forall_cons in Hall' as [Hx _].
  unfold JS.min, JS.max. simpl. rewrite (min2_infinity x Hx), (max2_neg_infinity x Hx).
  split; apply foldl_choice; auto using min2_choice, max2_choice.
Qed.

(** X13.  When no number of the store is [NaN] (as in every store the loader
    builds), the minimum and the maximum the statistics report for
    temperature, humidity and battery voltage are values of records of the
    store; in particular none of them is [NaN] or an infinity the data does
    not hold. *)
Theorem statistics_extremes_are_readings (s : server) :
  sensorData s ≠ [] →
  Forall well_formed (sensorData s) →
  ∃ st, statistics s = {| status := 200; json := Statistics st |}
    ∧ Series.min (stats_temperature st) ∈ temperature <$> sensorData s
    ∧ Series.max (stats_temperature st) ∈ temperature <$> sensorData s
    ∧ Series.min (stats_humidity st) ∈ humidity <$> sensorData s
    ∧ Series.max (stats_humidity st) ∈ humidity <$> sensorData s
    ∧ Battery.min (stats_battery_voltage st) ∈ battery_voltage <$> sensorData s
    ∧ Battery.max (stats_battery_voltage st) ∈ battery_voltage <$> sensorData s.
Proof.
  intros Hne Hwf. exists (computeStats (sensorData s)). split.
  { unfold statistics.
    destruct (decide (length (sensorData s) = 0%nat)) as [Hz|_]; [|done].
    by apply length_zero_iff_nil in Hz. }
  assert (Hseries : ∀ f : SensorRecord → JS.number,
             (∀ r, well_formed r → JS.isNaN (f r) = false) →
             JS.min (f <$> sensorData s) ∈ f <$> sensorData s
             ∧ JS.max (f <$> sensorData s) ∈ f <$> sensorData s).
  { intros f Hf. apply min_max_in.
    - by destruct (sensorData s).
    - apply Forall_fmap. eapply Forall_impl; [exact Hwf|]. intros r Hr. by apply Hf. }
  destruct (Hseries temperature) as [Ht1 Ht2]; [by intros r (? & ? & ? & ? & ?)|].
  destruct (Hseries humidity) as [Hh1 Hh2]; [by intros r (? & ? & ? & ? & ?)|].
  destruct (Hseries battery_voltage) as [Hb1 Hb2]; [by intros r (? & ? & ? & ? & ?)|].
  done.
Qed.

(** The loaded server: temperatures 1, 2, 3. *)
Lemma statistics_extremes_are_readings_witness :
  ∃ st, statistics loaded = {| status := 200; json := Statistics st |}
        ∧ Series.min (stats_temperature st) ∈ temperature <$> sensorData loaded.
Proof.
  destruct (statistics_extremes_are_readings loaded) as (st & Hst & Hmin & _).
  - done.
  - repeat constructor; vm_compute; try reflexivity; discriminate.
  - exists st. split; [exact Hst|exact Hmin].
Defined.

(** ** The sign of a standard deviation *)

Lemma sqrt_not_negative (x : JS.number) : (sqrt x <? 0) = false.
Proof.
  rewrite FloatAxioms.ltb_spec, FloatAxioms.sqrt_spec.
  change (Prim2SF 0) with (S754_zero false).
  destruct (Prim2SF x) as [[]|[]| |[] m e]; try reflexivity.
  unfold SF64sqrt, SFsqrt.
  destruct (SFsqrt_core_binary prec emax (Z.pos m) e) as [[mz ez] lz].
  unfold binary_round_aux.
  destruct (shr_fexp prec emax mz ez lz) as [mrs' e'].
  destruct (shr_fexp prec emax _ e' loc_Exact) as [mrs'' e''].
  destruct (shr_m mrs'') as [|p|p]; try reflexivity.
  by destruct (e'' <=? emax - prec)%Z.
Qed.

(** X14.  The standard deviations the statistics report are never negative
    (they may be [NaN], when the data holds infinities). *)
Theorem std_never_negative (s : server) :
  sensorData s ≠ [] →
  ∃ st, statistics s = {| status := 200; json := Statistics st |}
    ∧ (Series.std (stats_temperature st) <? 0) = false
    ∧ (Series.std (stats_humidity st) <? 0) = false.
Proof.
  intros Hne. exists (computeStats (sensorData s)). split.
  { unfold statistics.
    destruct (decide (length (sensorData s) = 0%nat)) as [Hz|_]; [|done].
    by apply length_zero_iff_nil in Hz. }
  split; apply sqrt_not_negative.
Qed.

(** The loaded server. *)
Lemma std_never_negative_witness :
  ∃ st, statistics loaded = {| status := 200; json := Statistics st |}
        ∧ (Series.std (stats_temperature st) <? 0) = false.
Proof.
  destruct (std_never_negative loaded) as (st & Hst & Hstd & _); [done|].
  exists st. split; [exact Hst|exact Hstd].
Defined.

Local Close Scope float_scope.

(** ** A row without the expected columns *)

(** X16.  A row that has none of the columns the loader looks for is stored
    all the same, with the time of its processing as timestamp and 0 for
    every measurement. *)
Theorem row_without_columns (ev : row_event) (store : list SensorRecord) :
  (∀ key, key ∈ ["time"; "timestamp"; "date"; "battery_voltage"; "battery"; "voltage";
                 "humidity"; "hum"; "motion"; "temperature"; "temp"] →
          cells ev !! key = None) →
  onData store ev
  = store ++ [{| timestamp := clock ev;
                 battery_voltage := 0%float;
                 humidity := 0%float;
                 motion := 0%float;
                 temperature := 0%float;
                 id := random_id ev |}].
Proof.
  intros Hnone.
  assert (Hrow : processRow ev
                 = {| timestamp := clock ev; battery_voltage := 0%float; humidity := 0%float;
                      motion := 0%float; temperature := 0%float; id := random_id ev |}).
  { unfold processRow.
    rewrite !Hnone by set_solver.
    reflexivity. }
  unfold onData. rewrite Hrow. reflexivity.
Qed.

(** A row of a file with other columns only. *)
Lemma row_without_columns_witness :
  length (onData three_records
            {| cells := <["pressure" := "1013"]> ∅;
               clock := "2024-01-01T00:00:00.000Z";
               random_id := "k3j9x0q1z" |}) = 4%nat.
Proof.
  rewrite row_without_columns; [reflexivity|].
  intros key Hkey.
  repeat (apply elem_of_cons in Hkey as [->|Hkey]; [vm_compute; reflexivity|]).
  by apply elem_of_nil in Hkey.
Defined.
